(** * S3ExcelAPIOrchestrator: a shallow embedding of [s3_orchestrator.py]

    The orchestrator joins three sources for every S3 key: a row of an
    Excel sheet, the XML answer of a remote API and the clock, and writes
    the combined document back as the object's metadata.  The embedding
    follows the methods of the class one by one and keeps their names.

    External collaborators (HTTP transport, XML parser, S3 client, clock)
    are fields of an environment record: every call to one of them is a
    lookup in that record, an exception being an explicit constructor of
    the result. *)

From Stdlib Require Import List String Ascii Bool Arith ZArith Lia.
From Stdlib Require Import DecimalString Permutation.
Import ListNotations.
Open Scope string_scope.
Open Scope list_scope.

Set Implicit Arguments.

(** ** Python values *)

Module Py.

(** A Python [str] is a [string] whose characters are code points: the
    character [ascii_of_nat n] is the code point U+00n, so the texts of
    this development are the texts of code points below 256.

    The values that flow through the orchestrator.  A [dict] keeps
    insertion order, so it is an association list; [set] and [update] keep
    its keys pairwise distinct.  [PFloat] carries a float by the text
    [str] prints for it, [PFloatOfInt z] is [float(z)]: no arithmetic is
    ever done on either. *)
#[warning="-register-all"]
Inductive value : Type :=
| PNone
| PNaN
| PBool (b : bool)
| PInt (z : Z)
| PFloat (repr : string)
| PFloatOfInt (z : Z)
| PStr (s : string)
| PList (items : list value)
| PDict (entries : list (string * value)).

Definition dict := list (string * value).

(** [d[k]], [None] when [k in d] is false. *)
Fixpoint get (k : string) (d : dict) : option value :=
  match d with
  | [] => None
  | (k', v) :: d' => if String.eqb k' k then Some v else get k d'
  end.

(** [d[k] = v]: an existing key keeps its place, a new key goes last. *)
Fixpoint set (k : string) (v : value) (d : dict) : dict :=
  match d with
  | [] => [(k, v)]
  | (k', v') :: d' =>
      if String.eqb k' k then (k', v) :: d' else (k', v') :: set k v d'
  end.

(** [d.update(other)]. *)
Definition update (d other : dict) : dict :=
  fold_left (fun acc kv => set (fst kv) (snd kv) acc) other d.

Definition keys (d : dict) : list string := map fst d.

Definition is_list (v : value) : bool :=
  match v with PList _ => true | _ => false end.

(** [str(int)]. *)
Definition str_of_int (z : Z) : string := NilZero.string_of_int (Z.to_int z).

(** A cell of the sheet.  A finite float is carried by the text [str]
    prints for it: no arithmetic is ever done on a cell, only [str()] and
    [pd.isna]. *)
Inductive cell : Type :=
| CNone
| CNaN
| CBool (b : bool)
| CInt (z : Z)
| CFloat (repr : string)
| CStr (s : string).

(** [str(c)], what [astype(str)] puts in the place of a cell. *)
Definition str (c : cell) : string :=
  match c with
  | CNone => "None"
  | CNaN => "nan"
  | CBool true => "True"
  | CBool false => "False"
  | CInt z => str_of_int z
  | CFloat r => r
  | CStr s => s
  end.

(** [pd.isna] on a cell. *)
Definition isna (c : cell) : bool :=
  match c with CNone | CNaN => true | _ => false end.

Definition of_cell (c : cell) : value :=
  match c with
  | CNone => PNone
  | CNaN => PNaN
  | CBool b => PBool b
  | CInt z => PInt z
  | CFloat r => PFloat r
  | CStr s => PStr s
  end.

(** The dtype of a column. *)
Inductive dtype : Type :=
| Int64
| Float64
| BoolDtype
| ObjectDtype.

Definition is_int64 (d : dtype) : bool :=
  match d with Int64 => true | _ => false end.

Definition is_numeric (d : dtype) : bool :=
  match d with Int64 | Float64 => true | _ => false end.

Definition is_bool (d : dtype) : bool :=
  match d with BoolDtype => true | _ => false end.

(** The dtype of the Series [df.iloc[i]], the common dtype of the
    columns: integers alone stay integers, integers and floats together
    are floats, booleans alone stay booleans, any other mix is [object]. *)
Definition iloc_dtype (dtypes : list dtype) : dtype :=
  if forallb is_int64 dtypes then Int64
  else if forallb is_numeric dtypes then Float64
  else if forallb is_bool dtypes then BoolDtype
  else ObjectDtype.

(** The Python value [to_dict] gives for a cell of a row Series of dtype
    [d]: in a float row an integer cell has become a float. *)
Definition to_python (d : dtype) (c : cell) : value :=
  match d, c with
  | Float64, CInt z => PFloatOfInt z
  | _, _ => of_cell c
  end.

(** [c.isspace()], the characters [str.strip()] removes: among the code
    points below 256 these are U+0009 to U+000D, U+001C to U+0020, the
    next-line control U+0085 and the no-break space U+00A0. *)
Definition isspace (c : ascii) : bool :=
  let n := nat_of_ascii c in
  (Nat.leb 9 n && Nat.leb n 13) || (Nat.leb 28 n && Nat.leb n 32)
  || Nat.eqb n 133 || Nat.eqb n 160.

(** [c in s] for one character. *)
Fixpoint contains (c : ascii) (s : string) : bool :=
  match s with
  | EmptyString => false
  | String a s' => Ascii.eqb a c || contains c s'
  end.

Definition hex_digit (n : nat) : ascii :=
  nth n (list_ascii_of_string "0123456789abcdef") "0"%char.

(** The quote [repr] puts around a text: a double quote when the text
    holds a single quote and no double quote, a single quote otherwise. *)
Definition repr_quote (s : string) : ascii :=
  if contains "'" s && negb (contains (ascii_of_nat 34) s)
  then ascii_of_nat 34 else "'"%char.

(** One character inside [repr(s)]: the quote and the backslash are
    escaped, tab, newline and return have their letter, every other
    unprintable code point (controls, U+007F to U+00A0, U+00AD) its two
    hexadecimal digits. *)
Definition repr_char (quote c : ascii) : string :=
  let n := nat_of_ascii c in
  if Ascii.eqb c quote || Nat.eqb n 92 then String (ascii_of_nat 92) (String c "")
  else if Nat.eqb n 9 then String (ascii_of_nat 92) "t"
  else if Nat.eqb n 10 then String (ascii_of_nat 92) "n"
  else if Nat.eqb n 13 then String (ascii_of_nat 92) "r"
  else if Nat.ltb n 32 || (Nat.leb 127 n && Nat.leb n 160) || Nat.eqb n 173
       then String (ascii_of_nat 92)
                   (String "x" (String (hex_digit (n / 16))
                                       (String (hex_digit (n mod 16)) "")))
  else String c "".

Fixpoint repr_body (quote : ascii) (s : string) : string :=
  match s with
  | EmptyString => EmptyString
  | String c s' => repr_char quote c ++ repr_body quote s'
  end.

(** [repr(s)] for a text [s]. *)
Definition repr (s : string) : string :=
  let quote := repr_quote s in
  String quote (repr_body quote s ++ String quote "").

Fixpoint lstrip (s : string) : string :=
  match s with
  | EmptyString => EmptyString
  | String c s' => if isspace c then lstrip s' else s
  end.

Fixpoint rstrip (s : string) : string :=
  match s with
  | EmptyString => EmptyString
  | String c s' =>
      match rstrip s' with
      | EmptyString => if isspace c then EmptyString else String c EmptyString
      | r => String c r
      end
  end.

Definition strip (s : string) : string := rstrip (lstrip s).

(** [s.split(sep)] for a one-character separator: never empty. *)
Fixpoint split (sep : ascii) (s : string) : list string :=
  match s with
  | EmptyString => [EmptyString]
  | String c s' =>
      if Ascii.eqb c sep then EmptyString :: split sep s'
      else match split sep s' with
           | [] => [String c EmptyString]
           | w :: ws => String c w :: ws
           end
  end.

End Py.

Import Py.

(** ** [xml.etree.ElementTree.Element] *)

#[warning="-register-all"]
Inductive Element : Type :=
| Elem (tag : string) (attrib : list (string * string))
       (text : option string) (children : list Element).

Definition tag_of (e : Element) : string :=
  match e with Elem t _ _ _ => t end.

(** [element.text and element.text.strip()]: the stripped text when it is
    truthy. *)
Definition stripped_text (text : option string) : option string :=
  match text with
  | None => None
  | Some t => match strip t with
              | EmptyString => None
              | s => Some s
              end
  end.

(** The body of the [for child in element] loop of [_xml_to_dict]. *)
Definition add_child (result : dict) (tag : string) (child_data : value) : dict :=
  match get tag result with
  | Some (PList l) => set tag (PList (l ++ [child_data])) result
  | Some v => set tag (PList [v; child_data]) result
  | None => set tag child_data result
  end.

Definition attrib_entries (attrib : list (string * string)) : dict :=
  map (fun kv => (fst kv, PStr (snd kv))) attrib.

(** [_xml_to_dict]. *)
Fixpoint _xml_to_dict (element : Element) : value :=
  match element with
  | Elem _ attrib text children =>
      let result := update [] (attrib_entries attrib) in
      let walk := fold_left
                    (fun acc child => add_child acc (tag_of child) (_xml_to_dict child))
                    children in
      match stripped_text text with
      | Some t =>
          match children with
          | [] => PStr t
          | _ => PDict (walk (set "text" (PStr t) result))
          end
      | None => PDict (walk result)
      end
  end.

(** ** Exceptions

    A computation that may raise: [Raise] carries [str(e)]. *)

Inductive exc (A : Type) : Type :=
| Ok (a : A)
| Raise (msg : string).

Arguments Ok {A} a.
Arguments Raise {A} msg.

Definition bind {A B : Type} (m : exc A) (k : A -> exc B) : exc B :=
  match m with
  | Ok a => k a
  | Raise msg => Raise msg
  end.

Notation "x <- m ;; k" := (bind m (fun x => k))
  (at level 61, m at next level, right associativity).

(** [try: body  except Exception as e: handler(str(e))]. *)
Definition try_except {A : Type} (body : exc A) (handler : string -> A) : A :=
  match body with
  | Ok a => a
  | Raise msg => handler msg
  end.

(** ** The orchestrator's environment *)

(** What [session.get(url)] / [requests.get(url)] does: it raises (timeout,
    connection reset) or it delivers a status and a body. *)
Inductive HttpResult : Type :=
| HttpRaise (msg : string)
| HttpResponse (status : Z) (body : string).

(** [pd.DataFrame]: the header, the dtype of every column and the rows,
    cell by cell.  A cell is what its column stores: an [Int64] column
    holds integers, a [Float64] column floats and NaN, a [BoolDtype]
    column booleans, an [ObjectDtype] column anything. *)
Record DataFrame : Type := {
  columns : list string;
  dtypes : list dtype;
  rows : list (list cell)
}.

(** [self], with the collaborators the methods call.
    - [http_get url]: the GET request and the reading of its body;
    - [ET_fromstring body]: [ET.fromstring], [inl] being a [ParseError];
    - [timestamp_now key]: [pd.Timestamp.now().isoformat()] at the moment
      the metadata of [key] is combined;
    - [copy_object key metadata]: [json.dumps] followed by
      [s3_client.copy_object], [Some msg] being the exception either
      raised. *)
Record Env : Type := {
  s3_bucket_name : string;
  api_base_url : string;
  excel_match_column : string;
  excel_df : DataFrame;
  http_get : string -> HttpResult;
  ET_fromstring : string -> string + Element;
  timestamp_now : string -> string;
  copy_object : string -> value -> option string
}.

Record ProcessingResult : Type := {
  s3_key : string;
  excel_data : value;
  api_data : value;
  combined_metadata : value;
  success : bool;
  error_message : option string
}.

(** The [ProcessingResult] every [except] branch builds. *)
Definition failed_result (key msg : string) : ProcessingResult :=
  {| s3_key := key;
     excel_data := PDict [];
     api_data := PDict [];
     combined_metadata := PDict [];
     success := false;
     error_message := Some msg |}.

Definition error_record (msg : string) : value :=
  PDict [("error", PStr msg)].

(** ** The methods *)

(** [extract_identifier_from_key]: [s3_key.split('/')[-1].split('.')[0]]. *)
Definition extract_identifier_from_key (key : string) : string :=
  let filename := last (split "/" key) "" in
  hd "" (split "." filename).

Fixpoint index_of (c : string) (cs : list string) : option nat :=
  match cs with
  | [] => None
  | c' :: cs' =>
      if String.eqb c' c then Some 0
      else match index_of c cs' with
           | Some i => Some (S i)
           | None => None
           end
  end.

(** [row.to_dict()] on a row Series of dtype [d], followed by the loop
    that turns NaN into [None]. *)
Definition row_to_dict (cols : list string) (d : dtype) (row : list cell) : dict :=
  map (fun kv => (fst kv, if isna (snd kv) then PNone else to_python d (snd kv)))
      (combine cols row).

(** The mask [df[col].astype(str) == str(identifier)] on one row. *)
Definition row_matches (j : nat) (identifier : string) (row : list cell) : bool :=
  String.eqb (str (nth j row CNaN)) identifier.

(** [get_excel_row].  [df[col]] raises [KeyError(col)] on an unknown
    column, whose [str] is [repr(col)]; the method's own [except] turns it
    into an error record. *)
Definition get_excel_row (self : Env) (identifier : string) : value :=
  let df := excel_df self in
  try_except
    (j <- match index_of (excel_match_column self) (columns df) with
          | Some j => Ok j
          | None => Raise (repr (excel_match_column self))
          end ;;
     let matching_rows := filter (row_matches j identifier) (rows df) in
     match matching_rows with
     | [] => Ok (error_record ("No matching row found for identifier: " ++ identifier))
     | row :: _ =>
         Ok (PDict (row_to_dict (columns df) (iloc_dtype (dtypes df)) row))
     end)
    error_record.

(** [query_api]: every exception of the request or of the parser is caught
    inside the method and returned as an error record. *)
Definition query_api (self : Env) (identifier : string) : value :=
  try_except
    (let url := (api_base_url self ++ "/" ++ identifier)%string in
     match http_get self url with
     | HttpRaise msg => Raise msg
     | HttpResponse status content =>
         if Z.eqb status 200 then
           match ET_fromstring self content with
           | inl msg => Raise msg
           | inr root => Ok (_xml_to_dict root)
           end
         else Ok (error_record ("API request failed with status " ++ str_of_int status))
     end)
    error_record.

(** [combine_data]. *)
Definition combine_data (self : Env) (key : string) (excel api : value) : value :=
  PDict [("s3_key", PStr key);
         ("processing_timestamp", PStr (timestamp_now self key));
         ("excel_data", excel);
         ("api_data", api)].

(** [update_s3_metadata]: the exception is logged, [False] is returned. *)
Definition update_s3_metadata (self : Env) (key : string) (metadata : value) : bool :=
  try_except
    (match copy_object self key metadata with
     | None => Ok true
     | Some msg => Raise msg
     end)
    (fun _ => false).

(** [process_single_key]. *)
Definition process_single_key (self : Env) (key : string) : ProcessingResult :=
  try_except
    (let identifier := extract_identifier_from_key key in
     let excel := get_excel_row self identifier in
     let api := query_api self identifier in
     let combined := combine_data self key excel api in
     let ok := update_s3_metadata self key combined in
     Ok {| s3_key := key;
           excel_data := excel;
           api_data := api;
           combined_metadata := combined;
           success := ok;
           error_message := None |})
    (failed_result key).

(** The request of [process_single_key_sync], written in line there: no
    [try] of its own stands around it. *)
Definition sync_api_call (self : Env) (identifier : string) : exc value :=
  let url := (api_base_url self ++ "/" ++ identifier)%string in
  match http_get self url with
  | HttpRaise msg => Raise msg
  | HttpResponse status text =>
      if Z.eqb status 200 then
        match ET_fromstring self text with
        | inl msg => Raise msg
        | inr root => Ok (_xml_to_dict root)
        end
      else Ok (error_record ("API request failed with status " ++ str_of_int status))
  end.

(** [process_single_key_sync]. *)
Definition process_single_key_sync (self : Env) (key : string) : ProcessingResult :=
  try_except
    (let identifier := extract_identifier_from_key key in
     let excel := get_excel_row self identifier in
     api <- sync_api_call self identifier ;;
     let combined := combine_data self key excel api in
     let ok := update_s3_metadata self key combined in
     Ok {| s3_key := key;
           excel_data := excel;
           api_data := api;
           combined_metadata := combined;
           success := ok;
           error_message := None |})
    (failed_result key).

(** ** The two schedulers *)

(** What a call of one of the batch methods does: it returns, it raises,
    or it never returns. *)
Inductive batch (A : Type) : Type :=
| Done (a : A)
| Fails (msg : string)
| Blocks.

Arguments Done {A} a.
Arguments Fails {A} msg.
Arguments Blocks {A}.

(** The loop [for i, result in enumerate(results)] of
    [process_keys_async]: [asyncio.gather(..., return_exceptions=True)]
    hands an exception over as a value, the loop replaces it by a failed
    result for [s3_keys[i]]; [gather] answers one result per task, so the
    index is always within [s3_keys]. *)
Fixpoint handle_exceptions (s3_keys : list string) (i : nat)
         (results : list (exc ProcessingResult)) : list ProcessingResult :=
  match results with
  | [] => []
  | result :: rest =>
      match result with
      | Raise msg => failed_result (nth i s3_keys "") msg
      | Ok r => r
      end :: handle_exceptions s3_keys (S i) rest
  end.

Definition is_empty {A : Type} (l : list A) : bool :=
  match l with [] => true | _ => false end.

(** [process_keys_async], over the coroutine [run] the tasks execute.
    [asyncio.Semaphore(n)] raises [ValueError] for [n < 0]; with [n = 0]
    no task ever passes [async with semaphore], so [gather] never
    completes unless there is no task at all.  For [n >= 1] every task
    runs to its end and [gather] lists the results in the order of the
    tasks. *)
Definition process_keys_async_with (run : string -> exc ProcessingResult)
           (s3_keys : list string) (max_concurrent : Z)
  : batch (list ProcessingResult) :=
  if Z.ltb max_concurrent 0 then Fails "Semaphore initial value must be >= 0"
  else if Z.eqb max_concurrent 0 && negb (is_empty s3_keys) then Blocks
  else
    let tasks := s3_keys in
    let results := map run tasks in
    Done (handle_exceptions s3_keys 0 results).

(** [process_keys_sync], over the function the workers execute.  A future
    is the position of its key in [s3_keys]; [completion] is the order in
    which [as_completed] yields the futures.  [ThreadPoolExecutor(n)]
    raises [ValueError] for [n <= 0]. *)
Definition process_keys_sync_with (run : string -> exc ProcessingResult)
           (s3_keys : list string) (max_workers : Z) (completion : list nat)
  : batch (list ProcessingResult) :=
  if Z.leb max_workers 0 then Fails "max_workers must be greater than 0"
  else
    let future_to_key := fun future => nth future s3_keys "" in
    Done (map (fun future =>
                 try_except (run (future_to_key future))
                            (failed_result (future_to_key future)))
              completion).

(** The order [as_completed] yields is some arrangement of the futures
    submitted: each of them exactly once. *)
Definition completion_order (s3_keys : list string) (completion : list nat) : Prop :=
  Permutation completion (seq 0 (List.length s3_keys)).

Definition process_keys_async (self : Env) (s3_keys : list string)
           (max_concurrent : Z) : batch (list ProcessingResult) :=
  process_keys_async_with (fun key => Ok (process_single_key self key))
                          s3_keys max_concurrent.

Definition process_keys_sync (self : Env) (s3_keys : list string)
           (max_workers : Z) (completion : list nat)
  : batch (list ProcessingResult) :=
  process_keys_sync_with (fun key => Ok (process_single_key_sync self key))
                         s3_keys max_workers completion.

(** The tally of [run_orchestrator]. *)
Definition successful (results : list ProcessingResult) : nat :=
  List.length (filter success results).

Definition failed (results : list ProcessingResult) : nat :=
  List.length results - successful results.

(** ** Notions used to state the properties *)

(** The values found under one tag: nothing, the single value, or the
    list of the values in the order they were met. *)
Definition one_or_many (vs : list value) : option value :=
  match vs with
  | [] => None
  | [v] => Some v
  | _ => Some (PList vs)
  end.

(** The conversions of the children that carry tag [t], in document
    order. *)
Definition converted_under (t : string) (cs : list Element) : list value :=
  map _xml_to_dict (filter (fun c => String.eqb (tag_of c) t) cs).

Definition walk_children (cs : list Element) (d : dict) : dict :=
  fold_left (fun acc child => add_child acc (tag_of child) (_xml_to_dict child)) cs d.

(** The address both pipelines request for a key. *)
Definition url_of (self : Env) (key : string) : string :=
  api_base_url self ++ "/" ++ extract_identifier_from_key key.

(** The outcome the scheduler records for a key: the result of the run,
    or a failed result carrying the key when the run raised. *)
Definition outcome_of (run : string -> exc ProcessingResult) (key : string)
  : ProcessingResult :=
  try_except (run key) (failed_result key).

(** ** A concrete orchestrator *)

Definition sheet : DataFrame :=
  {| columns := ["file_id"; "owner"; "size"];
     dtypes := [ObjectDtype; ObjectDtype; Float64];
     rows := [[CStr "a"; CStr "ann"; CNaN];
              [CInt 7; CStr "bob"; CFloat "3.0"];
              [CStr "a"; CStr "late"; CFloat "1.0"]] |}.

(** The API times out for [a], answers [<r/>] for [b] and 404 for every
    other identifier; the object [locked.xml] refuses the copy. *)
Definition demo : Env :=
  {| s3_bucket_name := "bucket";
     api_base_url := "https://api.example.com/data";
     excel_match_column := "file_id";
     excel_df := sheet;
     http_get := fun url =>
       if String.eqb url "https://api.example.com/data/a" then HttpRaise "timed out"
       else if String.eqb url "https://api.example.com/data/b" then HttpResponse 200 "<r/>"
       else HttpResponse 404 "";
     ET_fromstring := fun body =>
       if String.eqb body "<r/>" then inr (Elem "r" [] None [])
       else inl "no element found: line 1, column 0";
     timestamp_now := fun _ => "2024-01-01T00:00:00";
     copy_object := fun key _ =>
       if String.eqb key "locked.xml" then Some "AccessDenied" else None |}.

(** A pipeline run with a defect: it raises on [b.xml]. *)
Definition faulty_run (key : string) : exc ProcessingResult :=
  if String.eqb key "b.xml" then Raise "boom"
  else Ok (process_single_key demo key).

(** ** The loader, the listing and the entry point *)

(** [parts[i]]: an [IndexError] when the list is too short. *)
Definition item (parts : list string) (i : nat) : exc string :=
  match nth_error parts i with
  | Some part => Ok part
  | None => Raise "list index out of range"
  end.

(** The final path segment [s3_key.split('/')[-1]]. *)
Definition filename_of (key : string) : string := last (split "/" key) "".

(** What [_load_excel_data] calls:
    - [get_object bucket key]: [s3_client.get_object] and the reading of
      the body;
    - [read_excel_bytes data]: [pd.read_excel(BytesIO(data))];
    - [read_excel_file path]: [pd.read_excel(path)]. *)
Record Loader : Type := {
  get_object : string -> string -> exc string;
  read_excel_bytes : string -> exc DataFrame;
  read_excel_file : string -> exc DataFrame
}.

(** [_load_excel_data]: the [except] branch logs and raises again, so an
    exception of the body is the exception of the method. *)
Definition _load_excel_data (io : Loader) (excel_file_path : string) : exc DataFrame :=
  if String.prefix "s3://" excel_file_path then
    bucket_name <- item (split "/" excel_file_path) 2 ;;
    let key := String.concat "/" (skipn 3 (split "/" excel_file_path)) in
    excel_data <- get_object io bucket_name key ;;
    read_excel_bytes io excel_data
  else
    read_excel_file io excel_file_path.

(** The answer of [s3_client.list_objects_v2(Bucket, Prefix, MaxKeys)]: it
    raises, or it is a response in which ['Contents'] is absent or lists
    the objects, each by its ['Key']. *)
Definition Listing : Type := string -> string -> Z -> exc (option (list string)).

(** [get_s3_keys]: again the [except] branch raises what it caught. *)
Definition get_s3_keys (list_objects_v2 : Listing) (self : Env)
           (prefix : string) (max_keys : Z) : exc (list string) :=
  response <- list_objects_v2 (s3_bucket_name self) prefix max_keys ;;
  Ok (match response with
      | Some contents => contents
      | None => []
      end).

(** [run_orchestrator].  [completion] is the order in which the thread
    pool completes, used by the threaded strategy only.  The tally is
    logged and does not change the result. *)
Definition run_orchestrator (list_objects_v2 : Listing) (self : Env)
           (prefix : string) (max_keys : Z) (use_async : bool)
           (max_concurrent : Z) (completion : list nat)
  : batch (list ProcessingResult) :=
  match get_s3_keys list_objects_v2 self prefix max_keys with
  | Raise msg => Fails msg
  | Ok s3_keys =>
      if is_empty s3_keys then Done []
      else if use_async then process_keys_async self s3_keys max_concurrent
      else process_keys_sync self s3_keys max_concurrent completion
  end.

(** The keys of the mapping a node starts from, before its children are
    walked: the attribute names, then [text] when the node has children
    and text of its own. *)
Definition seed (attrib : list (string * string)) (text : option string) : dict :=
  match stripped_text text with
  | Some t => set "text" (PStr t) (update [] (attrib_entries attrib))
  | None => update [] (attrib_entries attrib)
  end.

(** A text made of white space only (the empty text included). *)
Fixpoint all_space (s : string) : bool :=
  match s with
  | EmptyString => true
  | String c s' => isspace c && all_space s'
  end.

(** A sheet of numbers only: integer keys beside a float column. *)
Definition numbers : Env :=
  {| s3_bucket_name := s3_bucket_name demo;
     api_base_url := api_base_url demo;
     excel_match_column := "file_id";
     excel_df := {| columns := ["file_id"; "weight"];
                    dtypes := [Int64; Float64];
                    rows := [[CInt 7; CFloat "1.5"]; [CInt 8; CNaN]] |};
     http_get := http_get demo;
     ET_fromstring := ET_fromstring demo;
     timestamp_now := timestamp_now demo;
     copy_object := copy_object demo |}.


(** A listing that answers the same keys for every request. *)
Definition fixed_listing (response : exc (option (list string))) : Listing :=
  fun _ _ _ => response.

(** A loader whose bucket [data] holds one sheet under [ref/sheet.xlsx]. *)
Definition demo_loader : Loader :=
  {| get_object := fun bucket key =>
       if String.eqb bucket "data" && String.eqb key "ref/sheet.xlsx"
       then Ok "xlsx-bytes" else Raise "NoSuchKey";
     read_excel_bytes := fun data =>
       if String.eqb data "xlsx-bytes" then Ok sheet else Raise "not a workbook";
     read_excel_file := fun path =>
       if String.eqb path "/tmp/sheet.xlsx" then Ok sheet
       else Raise "No such file or directory" |}.

(** * Properties *)

(** The extractor on the keys of the documentation. *)
Example extract_nested : extract_identifier_from_key "a/b/c.ext" = "c".
Proof. reflexivity. Qed.

Example extract_plain : extract_identifier_from_key "file" = "file".
Proof. reflexivity. Qed.

Example extract_folder : extract_identifier_from_key "a/b/" = "".
Proof. reflexivity. Qed.

Example strip_blank : strip "  a b  " = "a b" /\ strip "   " = "".
Proof. split; reflexivity. Qed.

(** ** Dictionaries *)

Section DictFacts.

Lemma get_set_same (k : string) (v : value) (d : dict) :
  get k (set k v d) = Some v.
Proof.
  induction d as [|[k' v'] d IH]; simpl.
  - now rewrite String.eqb_refl.
  - destruct (String.eqb k' k) eqn:E; simpl; rewrite E; auto.
Qed.

Lemma get_set_other (k k' : string) (v : value) (d : dict) :
  k <> k' -> get k' (set k v d) = get k' d.
Proof.
  intros Hne. induction d as [|[k0 v0] d IH]; simpl.
  - destruct (String.eqb k k') eqn:E; auto.
    apply String.eqb_eq in E. contradiction.
  - destruct (String.eqb k0 k) eqn:E; simpl.
    + apply String.eqb_eq in E. subst k0.
      destruct (String.eqb k k') eqn:E'; auto.
      apply String.eqb_eq in E'. contradiction.
    + destruct (String.eqb k0 k'); auto.
Qed.

Lemma get_none_notin (k : string) (d : dict) :
  ~ In k (keys d) -> get k d = None.
Proof.
  induction d as [|[k' v'] d IH]; simpl; intros H; auto.
  destruct (String.eqb k' k) eqn:E.
  - apply String.eqb_eq in E. tauto.
  - apply IH. tauto.
Qed.

Lemma set_fresh (k : string) (v : value) (d : dict) :
  get k d = None -> set k v d = d ++ [(k, v)].
Proof.
  induction d as [|[k' v'] d IH]; simpl; intros H; auto.
  destruct (String.eqb k' k); [discriminate|].
  now rewrite IH.
Qed.

Lemma keys_app (d1 d2 : dict) : keys (d1 ++ d2) = keys d1 ++ keys d2.
Proof. unfold keys. apply map_app. Qed.

(** Updating with entries whose keys are new and pairwise distinct
    appends them in order. *)
Lemma update_fresh (other d : dict) :
  NoDup (keys other) ->
  (forall k, In k (keys other) -> ~ In k (keys d)) ->
  update d other = d ++ other.
Proof.
  revert d. induction other as [|[k v] other IH]; intros d Hnd Hfresh.
  - simpl. now rewrite app_nil_r.
  - inversion Hnd as [|? ? Hk Hnd']; subst. unfold update in *. simpl.
    rewrite set_fresh by (apply get_none_notin, Hfresh; simpl; auto).
    rewrite IH; auto.
    + now rewrite <- app_assoc.
    + intros k' Hin. rewrite keys_app, in_app_iff. simpl.
      intros [H|[H|[]]].
      * apply (Hfresh k'); simpl; auto.
      * subst k'. contradiction.
Qed.

Lemma get_update_other (k : string) (other d : dict) :
  ~ In k (keys other) -> get k (update d other) = get k d.
Proof.
  revert d. induction other as [|[k0 v0] other IH]; intros d Hnot; auto.
  unfold update in *. simpl in *. rewrite IH by tauto.
  apply get_set_other. tauto.
Qed.

Lemma keys_attrib_entries (attrib : list (string * string)) :
  keys (attrib_entries attrib) = map fst attrib.
Proof.
  unfold keys, attrib_entries. rewrite map_map. reflexivity.
Qed.

End DictFacts.

(** ** The XML converter *)

Section Converter.

Lemma _xml_to_dict_unfold (tag : string) (attrib : list (string * string))
      (text : option string) (cs : list Element) :
  _xml_to_dict (Elem tag attrib text cs) =
  match stripped_text text with
  | Some t =>
      match cs with
      | [] => PStr t
      | _ => PDict (walk_children cs (set "text" (PStr t) (update [] (attrib_entries attrib))))
      end
  | None => PDict (walk_children cs (update [] (attrib_entries attrib)))
  end.
Proof. reflexivity. Qed.

Lemma _xml_to_dict_not_list (e : Element) : is_list (_xml_to_dict e) = false.
Proof.
  destruct e as [tag attrib text cs]. rewrite _xml_to_dict_unfold.
  destruct (stripped_text text); [destruct cs|]; reflexivity.
Qed.

Lemma add_child_same (d : dict) (t : string) (v : value) (seen : list value) :
  get t d = one_or_many seen ->
  Forall (fun x => is_list x = false) seen ->
  get t (add_child d t v) = one_or_many (seen ++ [v]).
Proof.
  intros Hget Hseen. unfold add_child. rewrite Hget.
  destruct seen as [|a [|b seen]]; simpl.
  - apply get_set_same.
  - inversion Hseen as [|? ? Ha _]; subst.
    destruct a; try discriminate; apply get_set_same.
  - apply get_set_same.
Qed.

Lemma add_child_other (d : dict) (t t' : string) (v : value) :
  t' <> t -> get t (add_child d t' v) = get t d.
Proof.
  intros Hne. unfold add_child.
  destruct (get t' d) as [[]|]; now apply get_set_other.
Qed.

Lemma walk_children_get (t : string) (cs : list Element) :
  forall (d : dict) (seen : list value),
    get t d = one_or_many seen ->
    Forall (fun x => is_list x = false) seen ->
    get t (walk_children cs d) = one_or_many (seen ++ converted_under t cs).
Proof.
  unfold walk_children, converted_under.
  induction cs as [|c cs IH]; intros d seen Hget Hseen; simpl.
  - now rewrite app_nil_r.
  - destruct (String.eqb (tag_of c) t) eqn:E; simpl.
    + apply String.eqb_eq in E. rewrite E.
      rewrite (IH _ (seen ++ [_xml_to_dict c])).
      * now rewrite <- app_assoc.
      * now apply add_child_same.
      * apply Forall_app. split; auto.
        constructor; auto. apply _xml_to_dict_not_list.
    + apply String.eqb_neq in E.
      apply IH; auto. rewrite add_child_other; auto.
Qed.

Lemma walk_children_get_fresh (t : string) (cs : list Element) (d : dict) :
  get t d = None ->
  get t (walk_children cs d) = one_or_many (converted_under t cs).
Proof.
  intros H. exact (@walk_children_get t cs d [] H (Forall_nil _)).
Qed.

(** The mapping a node starts from holds nothing under a tag that is
    neither an attribute name nor the key of the node's own text. *)
Lemma seed_get_none (t : string) (attrib : list (string * string)) :
  ~ In t (map fst attrib) -> get t (update [] (attrib_entries attrib)) = None.
Proof.
  intros H. rewrite get_update_other; auto.
  now rewrite keys_attrib_entries.
Qed.

End Converter.

(** C9: a node without children whose stripped text is not empty converts
    to that stripped text alone, whatever its attributes are. *)
Theorem leaf_text_discards_attributes
        (tag : string) (attrib : list (string * string)) (text : string) :
  strip text <> "" ->
  _xml_to_dict (Elem tag attrib (Some text) []) = PStr (strip text).
Proof.
  intros Hne. rewrite _xml_to_dict_unfold. simpl.
  destruct (strip text); [contradiction|reflexivity].
Qed.

Lemma leaf_text_discards_attributes_witness :
  strip " 42 " <> "" /\
  _xml_to_dict (Elem "n" [("id", "5"); ("unit", "kg")] (Some " 42 ") [])
  = PStr "42".
Proof.
  split.
  - simpl. discriminate.
  - exact (@leaf_text_discards_attributes "n" [("id", "5"); ("unit", "kg")] " 42 "
             ltac:(simpl; discriminate)).
Defined.

(** C10: a node without children and without text other than white space,
    carrying at least one attribute, converts to the mapping of its
    attributes: every attribute name to its value as a string, in order;
    this is neither the empty mapping nor a scalar. *)
Theorem leaf_attributes_only
        (tag : string) (attrib : list (string * string)) (text : option string) :
  (forall t, text = Some t -> strip t = "") ->
  attrib <> [] ->
  NoDup (map fst attrib) ->
  _xml_to_dict (Elem tag attrib text []) = PDict (attrib_entries attrib)
  /\ attrib_entries attrib <> []
  /\ (forall k v, In (k, v) attrib ->
                  In (k, PStr v) (attrib_entries attrib)
                  /\ get k (attrib_entries attrib) <> None).
Proof.
  intros Hblank Hne Hnd. split; [|split].
  - rewrite _xml_to_dict_unfold.
    assert (Hs : stripped_text text = None).
    { destruct text as [t|]; simpl; auto. now rewrite (Hblank t eq_refl). }
    rewrite Hs. simpl. f_equal.
    rewrite update_fresh; auto.
    now rewrite keys_attrib_entries.
  - destruct attrib; [congruence|discriminate].
  - intros k v Hin. split.
    + unfold attrib_entries. apply in_map_iff. exists (k, v). auto.
    + intro Hnone. clear - Hin Hnone.
      induction attrib as [|[k0 v0] attrib IH]; simpl in *; [tauto|].
      destruct (String.eqb k0 k) eqn:E; [discriminate|].
      destruct Hin as [H|H]; auto.
      inversion H; subst. now rewrite String.eqb_refl in E.
Qed.

Lemma leaf_attributes_only_witness :
  _xml_to_dict (Elem "n" [("id", "5"); ("unit", "kg")] (Some "  ") [])
  = PDict [("id", PStr "5"); ("unit", PStr "kg")].
Proof.
  refine (proj1 (@leaf_attributes_only "n" [("id", "5"); ("unit", "kg")] (Some "  ") _ _ _)).
  - intros t Ht. inversion Ht. reflexivity.
  - discriminate.
  - repeat constructor; simpl; intuition discriminate.
Defined.

(** C8, as stated, fails when the only child is itself tagged [id]: the
    attribute value and the child's conversion end up together in a list
    under [id], so [id] is no longer mapped to ["5"]. *)
Lemma attribute_and_child_collide :
  _xml_to_dict (Elem "r" [("id", "5")] None [Elem "id" [] (Some "7") []])
  = PDict [("id", PList [PStr "5"; PStr "7"])]
  /\ ~ (exists d,
          _xml_to_dict (Elem "r" [("id", "5")] None [Elem "id" [] (Some "7") []]) = PDict d
          /\ get "id" d = Some (PStr "5")).
Proof.
  split; [reflexivity|].
  intros [d [Hd Hid]]. vm_compute in Hd. inversion Hd; subst d.
  vm_compute in Hid. discriminate.
Qed.

(** C8, amended: a leaf with text ["42"] converts to the string ["42"];
    [<r><x>1</x><x>2</x></r>] converts to [{x: ["1", "2"]}]; in the mapping
    of any node, a tag that is neither an attribute name nor (when the node
    has text of its own) the key [text] holds the conversion of its single
    child, or the list of the conversions of its children in document
    order when there are several; and a node with the attribute
    [id = "5"] and one child whose tag is not [id] converts to a mapping
    with [id] mapped to ["5"] and an entry under the child's tag. *)
Theorem convert_examples_and_promotion :
  (forall tag, _xml_to_dict (Elem tag [] (Some "42") []) = PStr "42")
  /\ _xml_to_dict (Elem "r" [] None
                        [Elem "x" [] (Some "1") []; Elem "x" [] (Some "2") []])
     = PDict [("x", PList [PStr "1"; PStr "2"])]
  /\ (forall tag attrib text cs d t,
         _xml_to_dict (Elem tag attrib text cs) = PDict d ->
         ~ In t (map fst attrib) ->
         (t = "text" -> stripped_text text = None) ->
         get t d = one_or_many (converted_under t cs))
  /\ (forall tag text child,
         tag_of child <> "id" ->
         exists d,
           _xml_to_dict (Elem tag [("id", "5")] text [child]) = PDict d
           /\ get "id" d = Some (PStr "5")
           /\ get (tag_of child) d <> None).
Proof.
  split; [reflexivity|]. split; [reflexivity|]. split.
  - intros tag attrib text cs d t Hd Hattr Htext.
    rewrite _xml_to_dict_unfold in Hd.
    destruct (stripped_text text) as [s|] eqn:Hs.
    + destruct cs as [|c cs]; [discriminate|].
      assert (E : d = walk_children (c :: cs)
                        (set "text" (PStr s) (update [] (attrib_entries attrib))))
        by congruence.
      rewrite E. apply walk_children_get_fresh.
      assert (Hne : "text" <> t).
      { intro Et. symmetry in Et. specialize (Htext Et). discriminate. }
      rewrite get_set_other by exact Hne.
      now apply seed_get_none.
    + assert (E : d = walk_children cs (update [] (attrib_entries attrib)))
        by congruence.
      rewrite E. apply walk_children_get_fresh.
      now apply seed_get_none.
  - intros tag text child Hne.
    rewrite _xml_to_dict_unfold.
    assert (Hstep : forall d0,
               get "id" d0 = Some (PStr "5") ->
               get "id" (walk_children [child] d0) = Some (PStr "5")
               /\ get (tag_of child) (walk_children [child] d0) <> None).
    { intros d0 H0. unfold walk_children. simpl. split.
      - rewrite add_child_other; auto.
      - unfold add_child.
        destruct (get (tag_of child) d0) as [[]|];
          rewrite get_set_same; discriminate. }
    destruct (stripped_text text) as [s|];
      eexists; (split; [reflexivity|]); apply Hstep; reflexivity.
Qed.

Lemma convert_examples_and_promotion_witness :
  exists d,
    _xml_to_dict (Elem "r" [("id", "5")] (Some "note")
                       [Elem "x" [] (Some "1") []]) = PDict d
    /\ get "id" d = Some (PStr "5")
    /\ get "x" d <> None.
Proof.
  refine (proj2 (proj2 (proj2 convert_examples_and_promotion))
                "r" (Some "note") (Elem "x" [] (Some "1") []) _).
  simpl. discriminate.
Defined.

(** ** The Excel lookup *)

Section Lookup.

Variable self : Env.

Let df := excel_df self.

Lemma filter_skips_prefix (A : Type) (p : A -> bool) (before after : list A) (x : A) :
  Forall (fun y => p y = false) before ->
  p x = true ->
  filter p (before ++ x :: after) = x :: filter p after.
Proof.
  intros Hb Hx. induction Hb as [|y before Hy _ IH]; simpl.
  - now rewrite Hx.
  - now rewrite Hy.
Qed.


Lemma row_matches_false (j : nat) (k : string) (l : list (list cell)) :
  Forall (fun r => str (nth j r CNaN) <> k) l ->
  Forall (fun r => row_matches j k r = false) l.
Proof.
  apply Forall_impl. intros r Hr. now apply String.eqb_neq.
Qed.




End Lookup.


(** ** One pipeline run *)

Section Pipeline.

Variable self : Env.

(** The cooperative pipeline never takes its [except] branch: its success
    flag is what the writer answered. *)
Lemma process_single_key_eq (key : string) :
  process_single_key self key =
  let identifier := extract_identifier_from_key key in
  let excel := get_excel_row self identifier in
  let api := query_api self identifier in
  let combined := combine_data self key excel api in
  {| s3_key := key; excel_data := excel; api_data := api;
     combined_metadata := combined;
     success := update_s3_metadata self key combined;
     error_message := None |}.
Proof. reflexivity. Qed.

Lemma process_single_key_key (key : string) :
  s3_key (process_single_key self key) = key.
Proof. reflexivity. Qed.

Lemma process_single_key_sync_key (key : string) :
  s3_key (process_single_key_sync self key) = key.
Proof.
  unfold process_single_key_sync.
  destruct (sync_api_call self (extract_identifier_from_key key)); reflexivity.
Qed.

Lemma update_s3_metadata_true (key : string) (metadata : value) :
  copy_object self key metadata = None ->
  update_s3_metadata self key metadata = true.
Proof. unfold update_s3_metadata. now intros ->. Qed.

Lemma update_s3_metadata_false (key : string) (metadata : value) :
  update_s3_metadata self key metadata = false <->
  exists msg, copy_object self key metadata = Some msg.
Proof.
  unfold update_s3_metadata. destruct (copy_object self key metadata); simpl.
  - split; eauto.
  - split; [discriminate|]. now intros [msg H].
Qed.

Lemma query_api_soft (identifier : string) :
  query_api self identifier =
  match sync_api_call self identifier with
  | Ok api => api
  | Raise msg => error_record msg
  end.
Proof. reflexivity. Qed.

End Pipeline.




(** C4, as stated, fails on the error message: when the writer answers
    [False] the outcome has no error message at all. *)
Lemma writer_failure_leaves_no_message :
  copy_object demo "locked.xml"
              (combined_metadata (process_single_key demo "locked.xml"))
  = Some "AccessDenied"
  /\ success (process_single_key demo "locked.xml") = false
  /\ ~ (exists text, error_message (process_single_key demo "locked.xml") = Some text)
  /\ success (process_single_key_sync demo "locked.xml") = false
  /\ ~ (exists text, error_message (process_single_key_sync demo "locked.xml") = Some text).
Proof.
  repeat split; try reflexivity; intros [text H]; vm_compute in H; discriminate.
Qed.

(** C4, amended: when the writer answers [False], the run ends without
    raising in an outcome whose success flag is false; the outcome keeps
    the Excel row, the API record and the combined metadata, and its error
    message is absent: the writer's error text is logged, not captured.
    This holds for the cooperative pipeline, and for the threaded one
    whenever its request did not raise. *)
Theorem writer_failure_outcome (self : Env) (key : string) :
  let identifier := extract_identifier_from_key key in
  let excel := get_excel_row self identifier in
  (update_s3_metadata self key
     (combine_data self key excel (query_api self identifier)) = false ->
   process_single_key self key =
   {| s3_key := key; excel_data := excel;
      api_data := query_api self identifier;
      combined_metadata := combine_data self key excel (query_api self identifier);
      success := false; error_message := None |})
  /\ (forall api,
         sync_api_call self identifier = Ok api ->
         update_s3_metadata self key (combine_data self key excel api) = false ->
         process_single_key_sync self key =
         {| s3_key := key; excel_data := excel; api_data := api;
            combined_metadata := combine_data self key excel api;
            success := false; error_message := None |}).
Proof.
  cbv zeta. split.
  - intros Hw. rewrite process_single_key_eq. cbv zeta. now rewrite Hw.
  - intros api Hapi Hw. unfold process_single_key_sync.
    rewrite Hapi. simpl. now rewrite Hw.
Qed.

Lemma writer_failure_outcome_witness :
  success (process_single_key demo "locked.xml") = false
  /\ error_message (process_single_key demo "locked.xml") = None
  /\ success (process_single_key_sync demo "locked.xml") = false
  /\ error_message (process_single_key_sync demo "locked.xml") = None.
Proof.
  pose proof (proj1 (writer_failure_outcome demo "locked.xml") eq_refl) as Ha.
  pose proof (proj2 (writer_failure_outcome demo "locked.xml") _ eq_refl eq_refl) as Hs.
  rewrite Ha, Hs. repeat split.
Defined.

(** ** The schedulers *)

Section Scheduler.

Variable run : string -> exc ProcessingResult.

Lemma handle_exceptions_outcomes (before rest : list string) :
  handle_exceptions (before ++ rest) (List.length before) (map run rest)
  = map (outcome_of run) rest.
Proof.
  revert before. induction rest as [|key rest IH]; intros before; simpl; auto.
  f_equal.
  - rewrite nth_middle. unfold outcome_of. destruct (run key); reflexivity.
  - specialize (IH (before ++ [key])).
    rewrite <- app_assoc, length_app, Nat.add_1_r in IH. exact IH.
Qed.

Lemma nth_seq_all (A : Type) (d : A) (l : list A) :
  map (fun i => nth i l d) (seq 0 (List.length l)) = l.
Proof.
  induction l as [|x l IH]; simpl; auto.
  f_equal. rewrite <- seq_shift, map_map. exact IH.
Qed.

Lemma process_keys_async_with_done (s3_keys : list string) (max_concurrent : Z) :
  (1 <= max_concurrent)%Z ->
  process_keys_async_with run s3_keys max_concurrent
  = Done (map (outcome_of run) s3_keys).
Proof.
  intros HC. unfold process_keys_async_with.
  destruct (Z.ltb_spec max_concurrent 0); [lia|].
  destruct (Z.eqb_spec max_concurrent 0); [lia|]. simpl.
  f_equal. exact (handle_exceptions_outcomes [] s3_keys).
Qed.

Lemma process_keys_sync_with_done (s3_keys : list string) (max_workers : Z)
      (completion : list nat) :
  (1 <= max_workers)%Z ->
  process_keys_sync_with run s3_keys max_workers completion
  = Done (map (fun i => outcome_of run (nth i s3_keys "")) completion).
Proof.
  intros HC. unfold process_keys_sync_with.
  destruct (Z.leb_spec max_workers 0); [lia|]. reflexivity.
Qed.

Lemma completion_outcomes (s3_keys : list string) (completion : list nat) :
  completion_order s3_keys completion ->
  Permutation (map (fun i => outcome_of run (nth i s3_keys "")) completion)
              (map (outcome_of run) s3_keys).
Proof.
  intros Hperm. unfold completion_order in Hperm.
  apply (Permutation_map (fun i => outcome_of run (nth i s3_keys ""))) in Hperm.
  assert (E : map (outcome_of run) s3_keys
              = map (fun i => outcome_of run (nth i s3_keys ""))
                    (seq 0 (List.length s3_keys))).
  { rewrite <- (map_map (fun i => nth i s3_keys "") (outcome_of run)).
    now rewrite nth_seq_all. }
  now rewrite E.
Qed.

Lemma outcome_of_key (key : string) :
  (forall k r, run k = Ok r -> s3_key r = k) ->
  s3_key (outcome_of run key) = key.
Proof.
  intros Hkey. unfold outcome_of.
  destruct (run key) eqn:E; simpl; auto.
Qed.

Lemma outcomes_keys (s3_keys : list string) :
  (forall k r, run k = Ok r -> s3_key r = k) ->
  map s3_key (map (outcome_of run) s3_keys) = s3_keys.
Proof.
  intros Hkey. rewrite map_map.
  induction s3_keys as [|k ks IH]; simpl; auto.
  now rewrite outcome_of_key, IH.
Qed.

End Scheduler.

Lemma successful_all (results : list ProcessingResult) :
  Forall (fun r => success r = true) results ->
  successful results = List.length results /\ failed results = 0.
Proof.
  intros H. unfold failed, successful.
  assert (E : filter success results = results).
  { induction H as [|r rs Hr _ IH]; simpl; auto. now rewrite Hr, IH. }
  rewrite E. split; lia.
Qed.

Lemma process_keys_async_with_returns
      (run : string -> exc ProcessingResult) (s3_keys : list string)
      (max_concurrent : Z) (results : list ProcessingResult) :
  process_keys_async_with run s3_keys max_concurrent = Done results ->
  results = map (outcome_of run) s3_keys.
Proof.
  unfold process_keys_async_with.
  destruct (Z.ltb max_concurrent 0); [discriminate|].
  destruct (Z.eqb max_concurrent 0 && negb (is_empty s3_keys)); [discriminate|].
  intros H. injection H as <-. exact (handle_exceptions_outcomes run [] s3_keys).
Qed.

(** The two pipelines are the same function on every key whose request
    neither raises nor delivers a body the parser rejects. *)
Lemma pipelines_agree_without_fetch_exception (self : Env) (key : string) (api : value) :
  sync_api_call self (extract_identifier_from_key key) = Ok api ->
  process_single_key_sync self key = process_single_key self key.
Proof.
  intros H. rewrite process_single_key_eq. cbv zeta.
  unfold process_single_key_sync. rewrite query_api_soft, H. reflexivity.
Qed.

(** On an exception of the request or of the parser they part: the
    cooperative pipeline stores the text in the API record and goes on to
    the writer, the threaded one gives up with a failed result. *)
Lemma pipelines_part_on_fetch_exception (self : Env) (key msg : string) :
  sync_api_call self (extract_identifier_from_key key) = Raise msg ->
  api_data (process_single_key self key) = error_record msg
  /\ error_message (process_single_key self key) = None
  /\ success (process_single_key self key)
     = update_s3_metadata self key (combined_metadata (process_single_key self key))
  /\ process_single_key_sync self key = failed_result key msg.
Proof.
  intros H. rewrite process_single_key_eq. cbv zeta. simpl.
  rewrite query_api_soft, H. repeat split.
  unfold process_single_key_sync. rewrite H. reflexivity.
Qed.

Lemma strategies_agree_without_fetch_exception
      (self : Env) (s3_keys : list string) (limit : Z) (completion : list nat) :
  (1 <= limit)%Z ->
  completion_order s3_keys completion ->
  (forall key, In key s3_keys ->
               exists api, sync_api_call self (extract_identifier_from_key key) = Ok api) ->
  exists cooperative threaded,
    process_keys_async self s3_keys limit = Done cooperative
    /\ process_keys_sync self s3_keys limit completion = Done threaded
    /\ Permutation threaded cooperative.
Proof.
  intros Hl Hc Hok. unfold process_keys_async, process_keys_sync.
  rewrite process_keys_async_with_done, process_keys_sync_with_done by assumption.
  do 2 eexists. split; [reflexivity|]. split; [reflexivity|].
  eapply Permutation_trans; [apply completion_outcomes; exact Hc|].
  apply Permutation_refl'. apply map_ext_in.
  intros key Hin. destruct (Hok key Hin) as [api Hapi].
  unfold outcome_of. simpl.
  eapply pipelines_agree_without_fetch_exception; eauto.
Qed.

(** C5: with a concurrency limit between 1 and the number of keys, both
    schedulers return, and return exactly one outcome per submitted key:
    the cooperative one the outcomes of the keys in input order, the
    threaded one an arrangement of the same outcomes.  A run that raises
    does not stop the batch: it is recorded as the outcome that carries
    its key, empty data, the success flag false and the text of the
    exception as error message; when the runs label their results with
    their key, the keys of the outcomes are the input keys. *)
Theorem scheduler_one_outcome_per_key
        (run : string -> exc ProcessingResult) (s3_keys : list string)
        (limit : Z) (completion : list nat) :
  (1 <= limit <= Z.of_nat (List.length s3_keys))%Z ->
  completion_order s3_keys completion ->
  exists cooperative threaded,
    process_keys_async_with run s3_keys limit = Done cooperative
    /\ process_keys_sync_with run s3_keys limit completion = Done threaded
    /\ List.length cooperative = List.length s3_keys
    /\ List.length threaded = List.length s3_keys
    /\ cooperative = map (outcome_of run) s3_keys
    /\ Permutation threaded cooperative
    /\ (forall key msg,
           In key s3_keys -> run key = Raise msg ->
           let failure :=
             {| s3_key := key;
                excel_data := PDict [];
                api_data := PDict [];
                combined_metadata := PDict [];
                success := false;
                error_message := Some msg |} in
           In failure cooperative
           /\ In failure threaded
           /\ (forall i, nth_error s3_keys i = Some key ->
                         nth_error cooperative i = Some failure))
    /\ ((forall key r, run key = Ok r -> s3_key r = key) ->
        map s3_key cooperative = s3_keys
        /\ Permutation (map s3_key threaded) s3_keys).
Proof.
  intros [Hl _] Hc.
  rewrite process_keys_async_with_done, process_keys_sync_with_done by assumption.
  pose proof (completion_outcomes run Hc) as Hperm.
  do 2 eexists. split; [reflexivity|]. split; [reflexivity|].
  split; [apply length_map|].
  split; [rewrite (Permutation_length Hperm); apply length_map|].
  split; [reflexivity|]. split; [exact Hperm|]. split.
  - intros key msg Hin Hraise. cbv zeta.
    change {| s3_key := key; excel_data := PDict []; api_data := PDict [];
              combined_metadata := PDict []; success := false;
              error_message := Some msg |}
      with (failed_result key msg).
    assert (Hout : outcome_of run key = failed_result key msg).
    { unfold outcome_of. now rewrite Hraise. }
    assert (Hco : In (failed_result key msg) (map (outcome_of run) s3_keys)).
    { apply in_map_iff. exists key. split; auto. }
    split; [exact Hco|]. split.
    + eapply Permutation_in; [apply Permutation_sym; exact Hperm|exact Hco].
    + intros i Hi. rewrite nth_error_map, Hi. simpl. now rewrite Hout.
  - intros Hkey. split.
    + now apply outcomes_keys.
    + apply Permutation_trans with (map s3_key (map (outcome_of run) s3_keys)).
      * now apply Permutation_map.
      * rewrite outcomes_keys by exact Hkey. apply Permutation_refl.
Qed.

Lemma scheduler_one_outcome_per_key_witness :
  exists cooperative threaded,
    process_keys_async_with faulty_run ["c.xml"; "b.xml"; "d.xml"] 2 = Done cooperative
    /\ process_keys_sync_with faulty_run ["c.xml"; "b.xml"; "d.xml"] 2 [2; 0; 1]
       = Done threaded
    /\ map s3_key cooperative = ["c.xml"; "b.xml"; "d.xml"]
    /\ map s3_key threaded = ["d.xml"; "c.xml"; "b.xml"]
    /\ In {| s3_key := "b.xml"; excel_data := PDict []; api_data := PDict [];
             combined_metadata := PDict []; success := false;
             error_message := Some "boom" |} cooperative
    /\ In {| s3_key := "b.xml"; excel_data := PDict []; api_data := PDict [];
             combined_metadata := PDict []; success := false;
             error_message := Some "boom" |} threaded.
Proof.
  assert (Hl : (1 <= 2 <= Z.of_nat (List.length ["c.xml"; "b.xml"; "d.xml"]))%Z)
    by (simpl; lia).
  assert (Hc : completion_order ["c.xml"; "b.xml"; "d.xml"] [2; 0; 1]).
  { unfold completion_order. simpl.
    apply (Permutation_cons_app [0; 1] [] 2). simpl.
    apply Permutation_refl. }
  destruct (scheduler_one_outcome_per_key faulty_run Hl Hc)
    as [co [th [Hco [Hth [_ [_ [_ [_ [Hraise _]]]]]]]]].
  exists co, th. split; [exact Hco|]. split; [exact Hth|].
  specialize (Hraise "b.xml" "boom" ltac:(simpl; auto) eq_refl).
  cbv zeta in Hraise. destruct Hraise as [Hrc [Hrt _]].
  vm_compute in Hco. injection Hco as <-.
  vm_compute in Hth. injection Hth as <-.
  split; [reflexivity|]. split; [reflexivity|]. split; assumption.
Defined.

(** C6: the cooperative scheduler returns for every limit of at least 1,
    and whenever it returns, the outcome at position [i] carries the key
    at position [i] of the input. *)
Theorem async_outcomes_in_input_order
        (self : Env) (s3_keys : list string) (max_concurrent : Z) :
  ((1 <= max_concurrent)%Z ->
   exists results, process_keys_async self s3_keys max_concurrent = Done results)
  /\ (forall results,
         process_keys_async self s3_keys max_concurrent = Done results ->
         List.length results = List.length s3_keys
         /\ forall i key,
             nth_error s3_keys i = Some key ->
             exists r, nth_error results i = Some r /\ s3_key r = key).
Proof.
  split.
  - intros Hl. unfold process_keys_async.
    rewrite process_keys_async_with_done by assumption. eauto.
  - intros results Hres. apply process_keys_async_with_returns in Hres.
    subst results. split; [apply length_map|].
    intros i key Hi. rewrite nth_error_map, Hi. simpl.
    eexists. split; [reflexivity|]. reflexivity.
Qed.

Lemma async_outcomes_in_input_order_witness :
  exists results,
    process_keys_async demo ["b.xml"; "locked.xml"; "a.xml"] 1 = Done results
    /\ map s3_key results = ["b.xml"; "locked.xml"; "a.xml"]
    /\ exists r, nth_error results 1 = Some r /\ s3_key r = "locked.xml".
Proof.
  destruct (proj1 (async_outcomes_in_input_order demo
                     ["b.xml"; "locked.xml"; "a.xml"] 1) ltac:(lia))
    as [results Hres].
  exists results. split; [exact Hres|].
  pose proof (proj2 (proj2 (async_outcomes_in_input_order demo
                              ["b.xml"; "locked.xml"; "a.xml"] 1) results Hres)
                    1 "locked.xml" eq_refl) as Hone.
  split; [|exact Hone].
  vm_compute in Hres. injection Hres as <-. reflexivity.
Defined.

(** What the cooperative strategy does with a transport error, in
    general: in a batch of N keys where the request of one key raises and
    every write succeeds, the run returns N outcomes, all of them
    successes and none failed; the outcome of the affected key carries the
    error text in its API record [{error: text}] and has no error
    message. *)
Theorem fetch_error_is_soft_in_async_batch
        (self : Env) (s3_keys : list string) (max_concurrent : Z)
        (bad msg : string) :
  (1 <= max_concurrent)%Z ->
  In bad s3_keys ->
  http_get self (url_of self bad) = HttpRaise msg ->
  (forall key metadata, In key s3_keys -> copy_object self key metadata = None) ->
  exists results,
    process_keys_async self s3_keys max_concurrent = Done results
    /\ List.length results = List.length s3_keys
    /\ successful results = List.length s3_keys
    /\ failed results = 0
    /\ (exists r, In r results /\ s3_key r = bad)
    /\ (forall r, In r results -> s3_key r = bad ->
                  api_data r = error_record msg
                  /\ success r = true
                  /\ error_message r = None).
Proof.
  intros Hl Hbad Hget Hwrite. unfold process_keys_async.
  rewrite process_keys_async_with_done by assumption.
  eexists. split; [reflexivity|].
  assert (Hall : Forall (fun r => success r = true)
                        (map (outcome_of (fun key => Ok (process_single_key self key)))
                             s3_keys)).
  { apply Forall_forall. intros r Hr. apply in_map_iff in Hr.
    destruct Hr as [key [<- Hin]]. unfold outcome_of. simpl.
    now apply update_s3_metadata_true, Hwrite. }
  destruct (successful_all Hall) as [Hs Hf].
  rewrite length_map in Hs.
  split; [apply length_map|]. split; [exact Hs|]. split; [exact Hf|]. split.
  - exists (process_single_key self bad). split; [|reflexivity].
    apply in_map_iff. exists bad. split; auto.
  - intros r Hr Hkey. apply in_map_iff in Hr.
    destruct Hr as [key [<- Hin]]. unfold outcome_of in *. simpl in *. subst key.
    assert (Hraise : sync_api_call self (extract_identifier_from_key bad) = Raise msg).
    { unfold sync_api_call. unfold url_of in Hget. now rewrite Hget. }
    rewrite query_api_soft, Hraise. repeat split.
    now apply update_s3_metadata_true, Hwrite.
Qed.

Lemma fetch_error_is_soft_in_async_batch_witness :
  exists results,
    process_keys_async demo ["a.xml"; "b.xml"] 2 = Done results
    /\ successful results = 2
    /\ failed results = 0.
Proof.
  destruct (@fetch_error_is_soft_in_async_batch demo ["a.xml"; "b.xml"] 2
              "a.xml" "timed out"
              ltac:(lia) ltac:(simpl; auto) eq_refl
              ltac:(intros key metadata [<-|[<-|[]]]; reflexivity))
    as [results [Hres [_ [Hs [Hf _]]]]].
  exists results. auto.
Defined.

(** C1: the cooperative strategy does not isolate a transport error as a
    failure.  In the batch [["a.xml"; "b.xml"]], where the request of [a]
    times out and every other step succeeds, it returns two successes and
    no failure, the outcome of [a.xml] without error message; the
    threaded strategy on the same batch returns one success and one
    failure, which carries the text of the exception. *)
Theorem fetch_error_not_isolated_in_async_batch :
  http_get demo (url_of demo "a.xml") = HttpRaise "timed out"
  /\ sync_api_call demo (extract_identifier_from_key "b.xml") = Ok (PDict [])
  /\ (forall key metadata,
         In key ["a.xml"; "b.xml"] -> copy_object demo key metadata = None)
  /\ (exists outcome_a outcome_b,
         process_keys_async demo ["a.xml"; "b.xml"] 2 = Done [outcome_a; outcome_b]
         /\ s3_key outcome_a = "a.xml"
         /\ success outcome_a = true
         /\ error_message outcome_a = None
         /\ api_data outcome_a = error_record "timed out"
         /\ success outcome_b = true
         /\ successful [outcome_a; outcome_b] = 2
         /\ failed [outcome_a; outcome_b] = 0)
  /\ ~ (exists results,
          process_keys_async demo ["a.xml"; "b.xml"] 2 = Done results
          /\ successful results = 2 - 1
          /\ failed results = 1)
  /\ (exists results,
         process_keys_sync demo ["a.xml"; "b.xml"] 2 [0; 1] = Done results
         /\ successful results = 2 - 1
         /\ failed results = 1
         /\ In {| s3_key := "a.xml"; excel_data := PDict []; api_data := PDict [];
                  combined_metadata := PDict []; success := false;
                  error_message := Some "timed out" |} results).
Proof.
  split; [reflexivity|]. split; [reflexivity|]. split; [|split; [|split]].
  - intros key metadata [<-|[<-|[]]]; reflexivity.
  - do 2 eexists. split; [reflexivity|]. repeat split.
  - intros [results [Hres [Hs _]]].
    vm_compute in Hres. injection Hres as <-.
    vm_compute in Hs. discriminate.
  - eexists. split; [reflexivity|]. repeat split. simpl. auto.
Qed.

Lemma successful_permutation (l l' : list ProcessingResult) :
  Permutation l l' -> successful l = successful l'.
Proof.
  unfold successful. intros H.
  induction H as [|r l l' _ IH|r r' l|l l' l'' _ IH1 _ IH2]; simpl; auto.
  - destruct (success r); simpl; auto.
  - destruct (success r), (success r'); reflexivity.
  - congruence.
Qed.

(** Under the threaded strategy the same transport error does fail the
    run of its key: with every other request answered and every write
    accepted, the batch has N-1 successes and one failure, which carries
    the error text. *)
Lemma fetch_error_fails_one_in_sync_batch
      (self : Env) (before after : list string) (bad msg : string)
      (max_workers : Z) (completion : list nat) :
  (1 <= max_workers)%Z ->
  completion_order (before ++ bad :: after) completion ->
  http_get self (url_of self bad) = HttpRaise msg ->
  (forall key, In key (before ++ after) ->
               exists api, sync_api_call self (extract_identifier_from_key key) = Ok api) ->
  (forall key metadata, In key (before ++ after) ->
                        copy_object self key metadata = None) ->
  exists results,
    process_keys_sync self (before ++ bad :: after) max_workers completion = Done results
    /\ successful results = List.length (before ++ bad :: after) - 1
    /\ failed results = 1
    /\ In (failed_result bad msg) results.
Proof.
  intros Hl Hc Hget Hok Hwrite. unfold process_keys_sync.
  rewrite process_keys_sync_with_done by assumption.
  set (run := fun key => Ok (process_single_key_sync self key)).
  pose proof (completion_outcomes run Hc) as Hperm.
  assert (Hbad : outcome_of run bad = failed_result bad msg).
  { unfold outcome_of, run, process_single_key_sync, sync_api_call.
    unfold url_of in Hget. rewrite Hget. reflexivity. }
  assert (Hgood : forall l, (forall key, In key l -> In key (before ++ after)) ->
                            successful (map (outcome_of run) l) = List.length l).
  { intros l Hsub. rewrite <- (length_map (outcome_of run) l).
    apply successful_all. apply Forall_forall. intros r Hr.
    apply in_map_iff in Hr. destruct Hr as [key [<- Hin]].
    destruct (Hok key (Hsub key Hin)) as [api Hapi].
    unfold outcome_of, run, process_single_key_sync. simpl. rewrite Hapi. simpl.
    now apply update_s3_metadata_true, Hwrite, Hsub. }
  assert (Hcount : successful (map (outcome_of run) (before ++ bad :: after))
                   = List.length (before ++ bad :: after) - 1).
  { unfold successful in *. rewrite map_app, filter_app, !length_app. simpl.
    rewrite Hbad. simpl.
    rewrite (Hgood before), (Hgood after).
    - lia.
    - intros key Hin. apply in_or_app. now right.
    - intros key Hin. apply in_or_app. now left. }
  eexists. split; [reflexivity|].
  rewrite (successful_permutation Hperm). split; [exact Hcount|]. split.
  - unfold failed. rewrite (successful_permutation Hperm), Hcount.
    rewrite (Permutation_length Hperm), length_map, length_app. simpl. lia.
  - eapply Permutation_in; [apply Permutation_sym; exact Hperm|].
    apply in_map_iff. exists bad. split; [exact Hbad|].
    apply in_or_app. right. now left.
Qed.

(** C2: the two strategies do not return the same outcomes on the batch
    [["a.xml"]] when the request of [a] times out.  The cooperative
    pipeline reports a success whose API record holds the error text, the
    threaded pipeline reports a failure with the text as error message. *)
Theorem strategies_differ_on_fetch_error :
  http_get demo (url_of demo "a.xml") = HttpRaise "timed out"
  /\ completion_order ["a.xml"] [0]
  /\ process_keys_async demo ["a.xml"] 1 =
     Done [ {| s3_key := "a.xml";
               excel_data := PDict [("file_id", PStr "a"); ("owner", PStr "ann");
                                    ("size", PNone)];
               api_data := error_record "timed out";
               combined_metadata :=
                 PDict [("s3_key", PStr "a.xml");
                        ("processing_timestamp", PStr "2024-01-01T00:00:00");
                        ("excel_data",
                         PDict [("file_id", PStr "a"); ("owner", PStr "ann");
                                ("size", PNone)]);
                        ("api_data", error_record "timed out")];
               success := true;
               error_message := None |} ]
  /\ process_keys_sync demo ["a.xml"] 1 [0] =
     Done [ {| s3_key := "a.xml";
               excel_data := PDict [];
               api_data := PDict [];
               combined_metadata := PDict [];
               success := false;
               error_message := Some "timed out" |} ].
Proof.
  split; [reflexivity|]. split; [apply Permutation_refl|].
  split; reflexivity.
Qed.

(** * Further properties *)

(** ** Splitting and the identifier *)

Section Splitting.

Variable sep : ascii.

Lemma split_not_nil (s : string) : split sep s <> [].
Proof.
  destruct s as [|c s]; simpl; [discriminate|].
  destruct (Ascii.eqb c sep); [discriminate|].
  destruct (split sep s); discriminate.
Qed.

Lemma split_without_sep (s : string) :
  contains sep s = false -> split sep s = [s].
Proof.
  induction s as [|c s IH]; simpl; auto.
  intros H. apply orb_false_iff in H. destruct H as [Hc Hs].
  rewrite Hc, (IH Hs). reflexivity.
Qed.

Lemma split_append_sep (a b : string) :
  split sep (a ++ String sep b) = split sep a ++ split sep b.
Proof.
  induction a as [|c a IH]; simpl.
  - now rewrite Ascii.eqb_refl.
  - destruct (Ascii.eqb c sep); [now rewrite IH|].
    rewrite IH. destruct (split sep a) as [|w ws] eqn:E; [|reflexivity].
    now apply split_not_nil in E.
Qed.

Lemma split_parts_without_sep (s : string) :
  Forall (fun part => contains sep part = false) (split sep s).
Proof.
  induction s as [|c s IH]; simpl.
  - repeat constructor.
  - destruct (Ascii.eqb c sep) eqn:Ec.
    + constructor; auto.
    + destruct (split sep s) as [|w ws].
      * repeat constructor. simpl. now rewrite Ec.
      * inversion IH; subst. constructor; auto. simpl. now rewrite Ec.
Qed.

(** No part holds a character the whole string lacks. *)
Lemma split_parts_chars (c : ascii) (s : string) :
  contains c s = false ->
  Forall (fun part => contains c part = false) (split sep s).
Proof.
  induction s as [|a s IH]; simpl.
  - repeat constructor.
  - intros H. apply orb_false_iff in H. destruct H as [Ha Hs].
    specialize (IH Hs). destruct (Ascii.eqb a sep).
    + constructor; auto.
    + destruct (split sep s) as [|w ws].
      * repeat constructor. simpl. now rewrite Ha.
      * inversion IH; subst. constructor; auto. simpl. now rewrite Ha.
Qed.

Lemma join_split (s : string) :
  String.concat (String sep EmptyString) (split sep s) = s.
Proof.
  induction s as [|c s IH]; simpl; auto.
  destruct (Ascii.eqb_spec c sep) as [->|Hne].
  - destruct (split sep s) as [|w ws] eqn:E; [now apply split_not_nil in E|].
    simpl in *. now rewrite IH.
  - destruct (split sep s) as [|w ws] eqn:E; [now apply split_not_nil in E|].
    destruct ws; simpl in *; now rewrite <- IH.
Qed.

End Splitting.

Lemma last_app_right (A : Type) (l1 l2 : list A) (d : A) :
  l2 <> [] -> last (l1 ++ l2) d = last l2 d.
Proof.
  intros Hne. induction l1 as [|x l1 IH]; simpl; auto.
  rewrite IH. destruct (l1 ++ l2) eqn:E; auto.
  apply app_eq_nil in E. tauto.
Qed.

Lemma Forall_last (A : Type) (P : A -> Prop) (l : list A) (d : A) :
  Forall P l -> P d -> P (last l d).
Proof.
  intros H Hd. induction H as [|x l Hx _ IH]; simpl; auto.
  destruct l; auto.
Qed.

Lemma Forall_hd (A : Type) (P : A -> Prop) (l : list A) (d : A) :
  Forall P l -> P d -> P (hd d l).
Proof. intros H Hd. destruct H; simpl; auto. Qed.

Lemma filename_of_without_slash (key : string) :
  contains "/" (filename_of key) = false.
Proof.
  unfold filename_of.
  apply (@Forall_last _ (fun part => contains "/" part = false));
    [apply split_parts_without_sep|reflexivity].
Qed.

Lemma contains_append (c : ascii) (a b : string) :
  contains c (a ++ b) = contains c a || contains c b.
Proof.
  induction a as [|x a IH]; simpl; auto.
  now rewrite IH, orb_assoc.
Qed.

Lemma identifier_chars (key : string) :
  contains "/" (extract_identifier_from_key key) = false
  /\ contains "." (extract_identifier_from_key key) = false.
Proof.
  unfold extract_identifier_from_key. fold (filename_of key). split.
  - apply (@Forall_hd _ (fun part => contains "/" part = false)); [|reflexivity].
    apply split_parts_chars, filename_of_without_slash.
  - apply (@Forall_hd _ (fun part => contains "." part = false)); [|reflexivity].
    apply split_parts_without_sep.
Qed.

(** X1: the identifier holds neither a slash nor a dot, whatever the key;
    so the address requested for a key has exactly one path segment after
    the base address. *)
Theorem identifier_has_no_separator (self : Env) (key : string) :
  contains "/" (extract_identifier_from_key key) = false
  /\ contains "." (extract_identifier_from_key key) = false
  /\ split "/" (url_of self key)
     = split "/" (api_base_url self) ++ [extract_identifier_from_key key].
Proof.
  destruct (identifier_chars key) as [Hs Hd]. repeat split; auto.
  unfold url_of.
  change (api_base_url self ++ "/" ++ extract_identifier_from_key key)%string
    with (api_base_url self ++ String "/" (extract_identifier_from_key key))%string.
  now rewrite split_append_sep, (split_without_sep _ _ Hs).
Qed.

(** X2: directories do not count: only what follows the last slash of the
    key does. *)
Theorem identifier_ignores_directories (dir file : string) :
  contains "/" file = false ->
  extract_identifier_from_key (dir ++ "/" ++ file) = extract_identifier_from_key file.
Proof.
  intros H. unfold extract_identifier_from_key.
  change (dir ++ "/" ++ file)%string with (dir ++ String "/" file)%string.
  rewrite split_append_sep, (split_without_sep _ _ H).
  rewrite last_app_right by discriminate. reflexivity.
Qed.

Lemma identifier_ignores_directories_witness :
  extract_identifier_from_key ("reports/2024" ++ "/" ++ "a.tar.gz")
  = extract_identifier_from_key "a.tar.gz".
Proof.
  exact (@identifier_ignores_directories "reports/2024" "a.tar.gz" eq_refl).
Defined.

(** X3: everything from the first dot of the file name on is dropped, and
    a name without slash and dot is its own identifier. *)
Theorem identifier_stops_at_first_dot (name rest : string) :
  contains "/" name = false ->
  contains "." name = false ->
  contains "/" rest = false ->
  extract_identifier_from_key (name ++ "." ++ rest) = name
  /\ extract_identifier_from_key name = name.
Proof.
  intros Hs Hd Hr. unfold extract_identifier_from_key. split.
  - rewrite (split_without_sep "/").
    + simpl last.
      change (name ++ "." ++ rest)%string with (name ++ String "." rest)%string.
      rewrite split_append_sep, (split_without_sep _ _ Hd). reflexivity.
    + rewrite !contains_append, Hs, Hr. reflexivity.
  - rewrite (split_without_sep _ _ Hs). simpl.
    now rewrite (split_without_sep _ _ Hd).
Qed.

Lemma identifier_stops_at_first_dot_witness :
  extract_identifier_from_key ("archive" ++ "." ++ "tar.gz") = "archive"
  /\ extract_identifier_from_key "archive" = "archive".
Proof.
  exact (@identifier_stops_at_first_dot "archive" "tar.gz" eq_refl eq_refl eq_refl).
Defined.

(** X4: extracting twice changes nothing: an identifier used as a key
    names itself. *)
Theorem identifier_is_stable (key : string) :
  extract_identifier_from_key (extract_identifier_from_key key)
  = extract_identifier_from_key key.
Proof.
  destruct (identifier_chars key) as [Hs Hd].
  unfold extract_identifier_from_key at 1.
  rewrite (split_without_sep _ _ Hs). simpl.
  now rewrite (split_without_sep _ _ Hd).
Qed.

Lemma hd_split_empty (sep : ascii) (s : string) :
  hd "" (split sep s) = "" <-> s = "" \/ exists rest, s = String sep rest.
Proof.
  destruct s as [|c s]; simpl.
  - split; auto.
  - destruct (Ascii.eqb_spec c sep) as [->|Hne]; simpl.
    + split; eauto.
    + destruct (split sep s); simpl; split; try discriminate;
        intros [H|[rest H]]; try discriminate; inversion H; contradiction.
Qed.

(** X5: the identifier is empty exactly when the file name is empty (the
    key is empty or ends with a slash) or starts with a dot; for such a
    folder key the address requested is the base address followed by a
    slash. *)
Theorem identifier_empty_cases (self : Env) (key : string) :
  (extract_identifier_from_key key = "" <->
   filename_of key = "" \/ exists rest, filename_of key = String "." rest)
  /\ (forall dir, key = (dir ++ "/")%string ->
                  extract_identifier_from_key key = ""
                  /\ url_of self key = (api_base_url self ++ "/")%string).
Proof.
  split.
  - unfold extract_identifier_from_key. fold (filename_of key).
    apply hd_split_empty.
  - intros dir ->.
    assert (E : extract_identifier_from_key (dir ++ "/") = "").
    { unfold extract_identifier_from_key.
      change (dir ++ "/")%string with (dir ++ String "/" "")%string.
      rewrite split_append_sep. simpl split at 2.
      rewrite last_app_right by discriminate. reflexivity. }
    split; [exact E|]. unfold url_of. now rewrite E.
Qed.

Lemma identifier_empty_cases_witness :
  extract_identifier_from_key "reports/2024/" = ""
  /\ url_of demo "reports/2024/" = "https://api.example.com/data/".
Proof.
  exact (proj2 (identifier_empty_cases demo "reports/2024/") "reports/2024" eq_refl).
Defined.

(** ** More on the XML converter *)

Section ConverterKeys.

Lemma get_none_iff (k : string) (d : dict) :
  get k d = None <-> ~ In k (keys d).
Proof.
  split; [|apply get_none_notin].
  induction d as [|[k' v'] d IH]; simpl; auto.
  destruct (String.eqb_spec k' k) as [->|Hne]; [discriminate|].
  intros H [E|Hin]; [contradiction|]. now apply IH.
Qed.

Lemma keys_set (k : string) (v : value) (d : dict) :
  keys (set k v d) = if in_dec string_dec k (keys d) then keys d else keys d ++ [k].
Proof.
  induction d as [|[k' v'] d IH]; simpl; auto.
  destruct (String.eqb_spec k' k) as [->|Hne]; simpl.
  - destruct (string_dec k k); [|contradiction].
    reflexivity.
  - rewrite IH. destruct (string_dec k' k); [contradiction|].
    destruct (in_dec string_dec k (keys d)); reflexivity.
Qed.

Lemma in_keys_set (k k' : string) (v : value) (d : dict) :
  In k' (keys (set k v d)) <-> k' = k \/ In k' (keys d).
Proof.
  rewrite keys_set. destruct (in_dec string_dec k (keys d)) as [Hin|Hnot].
  - split; auto. intros [->|H]; auto.
  - rewrite in_app_iff. simpl. intuition.
Qed.

Lemma nodup_keys_set (k : string) (v : value) (d : dict) :
  NoDup (keys d) -> NoDup (keys (set k v d)).
Proof.
  intros Hnd. rewrite keys_set.
  destruct (in_dec string_dec k (keys d)) as [Hin|Hnot]; auto.
  apply NoDup_app; auto.
  - repeat constructor. simpl. tauto.
  - intros x Hx [<-|[]]. contradiction.
Qed.

Lemma keys_add_child (d : dict) (t : string) (v : value) :
  exists v', keys (add_child d t v) = keys (set t v' d).
Proof.
  unfold add_child. destruct (get t d) as [[]|]; eauto.
Qed.

Lemma in_keys_walk (cs : list Element) (d : dict) (k : string) :
  In k (keys (walk_children cs d)) <-> In k (keys d) \/ In k (map tag_of cs).
Proof.
  unfold walk_children. revert d.
  induction cs as [|c cs IH]; intros d; simpl; [tauto|].
  rewrite IH.
  destruct (keys_add_child d (tag_of c) (_xml_to_dict c)) as [v' ->].
  rewrite in_keys_set. intuition.
Qed.

Lemma nodup_keys_walk (cs : list Element) (d : dict) :
  NoDup (keys d) -> NoDup (keys (walk_children cs d)).
Proof.
  unfold walk_children. revert d.
  induction cs as [|c cs IH]; intros d Hnd; simpl; auto.
  apply IH.
  destruct (keys_add_child d (tag_of c) (_xml_to_dict c)) as [v' ->].
  now apply nodup_keys_set.
Qed.

Lemma in_keys_update (other d : dict) (k : string) :
  In k (keys (update d other)) <-> In k (keys d) \/ In k (keys other).
Proof.
  unfold update. revert d.
  induction other as [|[k0 v0] other IH]; intros d; simpl; [tauto|].
  rewrite IH, in_keys_set. intuition.
Qed.

Lemma nodup_keys_update (other d : dict) :
  NoDup (keys d) -> NoDup (keys (update d other)).
Proof.
  unfold update. revert d.
  induction other as [|[k0 v0] other IH]; intros d Hnd; simpl; auto.
  apply IH. now apply nodup_keys_set.
Qed.

Lemma in_keys_seed (attrib : list (string * string)) (text : option string) (k : string) :
  In k (keys (seed attrib text)) <->
  In k (map fst attrib) \/ (k = "text" /\ stripped_text text <> None).
Proof.
  unfold seed. destruct (stripped_text text) as [t|].
  - rewrite in_keys_set, in_keys_update, keys_attrib_entries. simpl.
    intuition congruence.
  - rewrite in_keys_update, keys_attrib_entries. simpl.
    intuition congruence.
Qed.

Lemma nodup_keys_seed (attrib : list (string * string)) (text : option string) :
  NoDup (keys (seed attrib text)).
Proof.
  unfold seed. destruct (stripped_text text).
  - apply nodup_keys_set, nodup_keys_update. constructor.
  - apply nodup_keys_update. constructor.
Qed.

(** A node that converts to a mapping converts to its seed with the
    children walked over it. *)
Lemma convert_dict_eq (tag : string) (attrib : list (string * string))
      (text : option string) (cs : list Element) (d : dict) :
  _xml_to_dict (Elem tag attrib text cs) = PDict d ->
  d = walk_children cs (seed attrib text).
Proof.
  rewrite _xml_to_dict_unfold. unfold seed.
  destruct (stripped_text text); [destruct cs; [discriminate|]|]; congruence.
Qed.

Lemma get_in_nodup (k : string) (v : value) (d : dict) :
  NoDup (keys d) -> In (k, v) d -> get k d = Some v.
Proof.
  induction d as [|[k' v'] d IH]; simpl; [tauto|].
  intros Hnd [E|Hin].
  - inversion E; subst. now rewrite String.eqb_refl.
  - inversion Hnd as [|? ? Hk Hnd']; subst.
    destruct (String.eqb_spec k' k) as [->|Hne]; auto.
    exfalso. apply Hk. unfold keys. apply in_map_iff. exists (k, v). auto.
Qed.

End ConverterKeys.

(** X7: the keys of the mapping a node converts to are pairwise distinct
    and are exactly the attribute names, the key [text] when the node has
    text of its own, and the tags of the children. *)
Theorem converted_keys (tag : string) (attrib : list (string * string))
        (text : option string) (cs : list Element) (d : dict) :
  _xml_to_dict (Elem tag attrib text cs) = PDict d ->
  NoDup (keys d)
  /\ forall k, In k (keys d) <->
               In k (map fst attrib)
               \/ (k = "text" /\ stripped_text text <> None)
               \/ In k (map tag_of cs).
Proof.
  intros Hd. apply convert_dict_eq in Hd. subst d. split.
  - apply nodup_keys_walk, nodup_keys_seed.
  - intros k. rewrite in_keys_walk, in_keys_seed. tauto.
Qed.

Lemma converted_keys_witness :
  NoDup (keys [("id", PList [PStr "5"; PStr "7"]); ("text", PStr "n");
               ("x", PDict [])])
  /\ (In "x" (keys [("id", PList [PStr "5"; PStr "7"]); ("text", PStr "n");
                    ("x", PDict [])])
      <-> In "x" (map fst [("id", "5")])
          \/ ("x" = "text" /\ stripped_text (Some " n ") <> None)
          \/ In "x" (map tag_of [Elem "id" [] (Some "7") []; Elem "x" [] None []])).
Proof.
  destruct (@converted_keys "r" [("id", "5")] (Some " n ")
              [Elem "id" [] (Some "7") []; Elem "x" [] None []] _ eq_refl)
    as [Hnd Hk].
  split; [exact Hnd|exact (Hk "x")].
Defined.

(** X8: an attribute whose name is also the tag of children does not lose
    its value: the mapping holds under that name the list of the
    attribute value followed by the conversions of those children in
    document order (the bare value when there is no such child). *)
Theorem attribute_joins_children (tag : string) (attrib : list (string * string))
        (text : option string) (cs : list Element) (d : dict) (name val : string) :
  _xml_to_dict (Elem tag attrib text cs) = PDict d ->
  NoDup (map fst attrib) ->
  In (name, val) attrib ->
  (name = "text" -> stripped_text text = None) ->
  get name d = one_or_many (PStr val :: converted_under name cs).
Proof.
  intros Hd Hnd Hin Htext. apply convert_dict_eq in Hd. subst d.
  apply (@walk_children_get name cs (seed attrib text) [PStr val]).
  - assert (Hattr : get name (update [] (attrib_entries attrib)) = Some (PStr val)).
    { assert (Hk : NoDup (keys (attrib_entries attrib)))
        by now rewrite keys_attrib_entries.
      rewrite update_fresh by (auto; intros k _ []).
      apply get_in_nodup; [exact Hk|].
      unfold attrib_entries. apply in_map_iff. exists (name, val). auto. }
    unfold seed. destruct (stripped_text text) eqn:Hs; auto.
    rewrite get_set_other; auto.
    intro E. symmetry in E. specialize (Htext E). discriminate.
  - repeat constructor.
Qed.

Lemma attribute_joins_children_witness :
  get "id" [("id", PList [PStr "5"; PStr "7"; PStr "8"])]
  = Some (PList [PStr "5"; PStr "7"; PStr "8"]).
Proof.
  refine (@attribute_joins_children "r" [("id", "5")] None
            [Elem "id" [] (Some "7") []; Elem "id" [] (Some "8") []]
            _ "id" "5" eq_refl _ _ _).
  - repeat constructor. simpl. tauto.
  - simpl. auto.
  - discriminate.
Defined.

(** X9: on a node with children, the node's own text takes the key [text]
    even from an attribute of that name, and children tagged [text] are
    appended after it. *)
Theorem own_text_takes_text_key (tag : string) (attrib : list (string * string))
        (text : option string) (cs : list Element) (d : dict) (t : string) :
  _xml_to_dict (Elem tag attrib text cs) = PDict d ->
  stripped_text text = Some t ->
  get "text" d = one_or_many (PStr t :: converted_under "text" cs).
Proof.
  intros Hd Ht. apply convert_dict_eq in Hd. subst d.
  apply (@walk_children_get "text" cs (seed attrib text) [PStr t]).
  - unfold seed. rewrite Ht. apply get_set_same.
  - repeat constructor.
Qed.

Lemma own_text_takes_text_key_witness :
  get "text" [("text", PStr "mine"); ("x", PDict [])] = Some (PStr "mine").
Proof.
  exact (@own_text_takes_text_key "r" [("text", "attr")] (Some " mine ")
           [Elem "x" [] None []] _ "mine" eq_refl eq_refl).
Defined.

(** X10: the converter returns a string exactly for a node without
    children whose stripped text is not empty, and a mapping for every
    other node; it never returns a list. *)
Theorem converted_shape (tag : string) (attrib : list (string * string))
        (text : option string) (cs : list Element) :
  (forall t, _xml_to_dict (Elem tag attrib text cs) = PStr t <->
             cs = [] /\ stripped_text text = Some t)
  /\ ((cs <> [] \/ stripped_text text = None) <->
      exists d, _xml_to_dict (Elem tag attrib text cs) = PDict d)
  /\ is_list (_xml_to_dict (Elem tag attrib text cs)) = false.
Proof.
  split; [|split].
  - intros t. rewrite _xml_to_dict_unfold.
    destruct (stripped_text text) as [s|]; [destruct cs|].
    + split; [intros H; inversion H; auto|intros [_ H]; inversion H; auto].
    + split; [discriminate|intros [H _]; discriminate].
    + split; [discriminate|intros [_ H]; discriminate].
  - rewrite _xml_to_dict_unfold.
    destruct (stripped_text text) as [s|]; [destruct cs|].
    + split; [intros [H|H]; [contradiction|discriminate]|intros [d H]; discriminate].
    + split; [eauto|intros _; left; discriminate].
    + split; [eauto|auto].
  - apply _xml_to_dict_not_list.
Qed.

(** ** Stripping *)

Section Stripping.

Lemma rstrip_keeps_head (c : ascii) (s : string) :
  isspace c = false -> rstrip (String c s) = String c (rstrip s).
Proof.
  intros Hc. simpl. destruct (rstrip s); [now rewrite Hc|reflexivity].
Qed.

Lemma rstrip_idempotent (s : string) : rstrip (rstrip s) = rstrip s.
Proof.
  induction s as [|c s IH]; simpl; auto.
  destruct (rstrip s) as [|a r] eqn:E.
  - destruct (isspace c) eqn:Hc; simpl; auto. now rewrite Hc.
  - change (rstrip (String c (String a r))) with
      (match rstrip (String a r) with
       | EmptyString => if isspace c then EmptyString else String c EmptyString
       | r0 => String c r0
       end).
    now rewrite IH.
Qed.

Lemma lstrip_head (s : string) :
  lstrip s = "" \/ exists c r, lstrip s = String c r /\ isspace c = false.
Proof.
  induction s as [|c s IH]; simpl; auto.
  destruct (isspace c) eqn:Hc; eauto.
Qed.

Lemma strip_idempotent (s : string) : strip (strip s) = strip s.
Proof.
  unfold strip. destruct (lstrip_head s) as [->|[c [r [-> Hc]]]]; auto.
  rewrite rstrip_keeps_head by exact Hc. simpl lstrip. rewrite Hc.
  rewrite rstrip_keeps_head by exact Hc. now rewrite rstrip_idempotent.
Qed.

Lemma strip_empty_iff (s : string) : strip s = "" <-> all_space s = true.
Proof.
  unfold strip. split.
  - intros H. destruct (lstrip_head s) as [E|[c [r [E Hc]]]].
    + clear H. induction s as [|a s IH]; simpl in *; auto.
      destruct (isspace a); [auto|discriminate].
    + rewrite E, rstrip_keeps_head in H by exact Hc. discriminate.
  - intros H. induction s as [|a s IH]; simpl in *; auto.
    apply andb_true_iff in H. destruct H as [Ha Hs]. rewrite Ha. auto.
Qed.

End Stripping.

(** X11: white space around the text of a node never reaches the result,
    the no-break space and the next-line control included: converting a
    node is converting it with its text stripped, and a text of white
    space only counts as no text at all. *)
Theorem text_is_stripped (tag : string) (attrib : list (string * string))
        (t : string) (cs : list Element) :
  _xml_to_dict (Elem tag attrib (Some t) cs)
  = _xml_to_dict (Elem tag attrib (Some (strip t)) cs)
  /\ (all_space t = true ->
      _xml_to_dict (Elem tag attrib (Some t) cs)
      = _xml_to_dict (Elem tag attrib None cs))
  /\ (all_space t = false ->
      cs = [] -> _xml_to_dict (Elem tag attrib (Some t) cs) = PStr (strip t)).
Proof.
  rewrite !_xml_to_dict_unfold. unfold stripped_text.
  rewrite strip_idempotent. split; [reflexivity|]. split.
  - intros H. apply strip_empty_iff in H. now rewrite H.
  - intros H ->. destruct (strip t) eqn:E; auto.
    apply strip_empty_iff in E. congruence.
Qed.

Lemma text_is_stripped_witness :
  _xml_to_dict (Elem "n" [("id", "5")] (Some "   ") [Elem "x" [] None []])
  = _xml_to_dict (Elem "n" [("id", "5")] None [Elem "x" [] None []])
  /\ _xml_to_dict (Elem "n" [("id", "5")] (Some " 4 2 ") []) = PStr "4 2"
  /\ _xml_to_dict (Elem "n" [("id", "5")] (Some (String (ascii_of_nat 160) "")) [])
     = PDict [("id", PStr "5")]
  /\ _xml_to_dict (Elem "n" [] (Some (String (ascii_of_nat 160)
                                             ("42" ++ String (ascii_of_nat 133) ""))) [])
     = PStr "42".
Proof.
  split; [|split; [|split]].
  - exact (proj1 (proj2 (text_is_stripped "n" [("id", "5")] "   "
                           [Elem "x" [] None []])) eq_refl).
  - exact (proj2 (proj2 (text_is_stripped "n" [("id", "5")] " 4 2 " []))
                 eq_refl eq_refl).
  - exact (eq_trans
             (proj1 (proj2 (text_is_stripped "n" [("id", "5")]
                              (String (ascii_of_nat 160) "") [])) eq_refl)
             eq_refl).
  - exact (proj2 (proj2 (text_is_stripped "n" []
                           (String (ascii_of_nat 160)
                                   ("42" ++ String (ascii_of_nat 133) "")) []))
                 eq_refl eq_refl).
Defined.

(** ** More on the Excel lookup *)

Section LookupMore.

Variable self : Env.

Lemma filter_first_exists (A : Type) (p : A -> bool) (l : list A) (x : A) :
  In x l -> p x = true ->
  exists y rest, filter p l = y :: rest /\ In y l /\ p y = true.
Proof.
  intros Hin Hp.
  assert (Hf : In x (filter p l)) by (apply filter_In; auto).
  destruct (filter p l) as [|y rest] eqn:E; [contradiction|].
  exists y, rest. split; auto.
  assert (Hy : In y (filter p l)) by (rewrite E; simpl; auto).
  apply filter_In in Hy. exact Hy.
Qed.

Lemma keys_row_to_dict (cols : list string) (d : dtype) (row : list cell) :
  List.length row = List.length cols -> keys (row_to_dict cols d row) = cols.
Proof.
  intros Hlen. unfold keys, row_to_dict. rewrite map_map. simpl.
  revert row Hlen. induction cols as [|c cols IH]; intros [|x row] Hlen;
    simpl in *; try discriminate; auto.
  f_equal. apply IH. lia.
Qed.

Lemma get_row_to_dict (cols : list string) (d : dtype) (row : list cell)
      (col : string) (j : nat) :
  index_of col cols = Some j ->
  j < List.length row ->
  get col (row_to_dict cols d row)
  = Some (if isna (nth j row CNaN) then PNone else to_python d (nth j row CNaN)).
Proof.
  revert row j. induction cols as [|c cols IH]; intros row j Hj Hlt; simpl in Hj.
  - discriminate.
  - destruct row as [|x row]; [simpl in Hlt; lia|].
    unfold row_to_dict. simpl.
    destruct (String.eqb c col) eqn:E.
    + inversion Hj; subst. reflexivity.
    + destruct (index_of col cols) as [i|] eqn:Ei; [|discriminate].
      inversion Hj; subst. simpl. apply IH; auto. simpl in Hlt. lia.
Qed.

End LookupMore.

(** X12: a match anywhere in the sheet is found: when some row prints the
    identifier in the key column, the lookup answers the mapping of a row
    of the sheet that does so. *)
Theorem lookup_finds_any_match (self : Env) (identifier : string) (j : nat)
        (row : list cell) :
  index_of (excel_match_column self) (columns (excel_df self)) = Some j ->
  In row (rows (excel_df self)) ->
  str (nth j row CNaN) = identifier ->
  exists found,
    In found (rows (excel_df self))
    /\ str (nth j found CNaN) = identifier
    /\ get_excel_row self identifier
       = PDict (row_to_dict (columns (excel_df self))
                            (iloc_dtype (dtypes (excel_df self))) found).
Proof.
  intros Hj Hin Hstr.
  destruct (@filter_first_exists _ (row_matches j identifier)
              (rows (excel_df self)) row Hin) as [found [rest [Hf [Hfin Hfm]]]].
  { unfold row_matches. now apply String.eqb_eq. }
  exists found. split; [exact Hfin|]. split.
  - unfold row_matches in Hfm. now apply String.eqb_eq.
  - unfold get_excel_row. rewrite Hj. simpl. now rewrite Hf.
Qed.

Lemma lookup_finds_any_match_witness :
  exists found,
    In found (rows (excel_df demo))
    /\ str (nth 0 found CNaN) = "a"
    /\ get_excel_row demo "a"
       = PDict (row_to_dict (columns (excel_df demo))
                            (iloc_dtype (dtypes (excel_df demo))) found).
Proof.
  exact (@lookup_finds_any_match demo "a" 0 [CStr "a"; CStr "late"; CFloat "1.0"]
           eq_refl ltac:(simpl; auto) eq_refl).
Defined.

(** X13: the mapping answered for a found row has the column names of the
    sheet as its keys, in the order of the sheet, and holds under the key
    column the Python value of the cell that matched: [None] when that
    cell is missing, the float of an integer cell when the sheet is made
    of integer and float columns only, the cell itself otherwise. *)
Theorem found_row_keeps_columns (self : Env) (identifier : string) (j : nat)
        (before after : list (list cell)) (row : list cell) :
  index_of (excel_match_column self) (columns (excel_df self)) = Some j ->
  rows (excel_df self) = before ++ row :: after ->
  Forall (fun r => str (nth j r CNaN) <> identifier) before ->
  str (nth j row CNaN) = identifier ->
  List.length row = List.length (columns (excel_df self)) ->
  exists d,
    get_excel_row self identifier = PDict d
    /\ keys d = columns (excel_df self)
    /\ get (excel_match_column self) d
       = Some (if isna (nth j row CNaN) then PNone
               else to_python (iloc_dtype (dtypes (excel_df self))) (nth j row CNaN))
    /\ (forall z, nth j row CNaN = CInt z ->
                  get (excel_match_column self) d
                  = Some (if forallb is_int64 (dtypes (excel_df self)) then PInt z
                          else if forallb is_numeric (dtypes (excel_df self))
                               then PFloatOfInt z
                               else PInt z)).
Proof.
  intros Hj Hrows Hbefore Hrow Hlen.
  exists (row_to_dict (columns (excel_df self))
                      (iloc_dtype (dtypes (excel_df self))) row).
  assert (Hlt : j < List.length row).
  { rewrite Hlen. clear - Hj.
    revert j Hj. induction (columns (excel_df self)) as [|c cols IH];
      intros j Hj; simpl in *; [discriminate|].
    destruct (String.eqb c (excel_match_column self)).
    - inversion Hj. lia.
    - destruct (index_of (excel_match_column self) cols); [|discriminate].
      inversion Hj. specialize (IH _ eq_refl). lia. }
  split; [|split; [|split]].
  - unfold get_excel_row. rewrite Hj. simpl. rewrite Hrows.
    rewrite filter_skips_prefix.
    + reflexivity.
    + now apply row_matches_false.
    + unfold row_matches. now apply String.eqb_eq.
  - now apply keys_row_to_dict.
  - now apply get_row_to_dict.
  - intros z Hz.
    rewrite (@get_row_to_dict _ (iloc_dtype (dtypes (excel_df self))) _ _ _ Hj Hlt).
    rewrite Hz. simpl.
    unfold iloc_dtype.
    destruct (forallb is_int64 (dtypes (excel_df self))); [reflexivity|].
    destruct (forallb is_numeric (dtypes (excel_df self))); [reflexivity|].
    destruct (forallb is_bool (dtypes (excel_df self))); reflexivity.
Qed.

Lemma found_row_keeps_columns_witness :
  (exists d,
      get_excel_row demo "7" = PDict d
      /\ keys d = ["file_id"; "owner"; "size"]
      /\ get "file_id" d = Some (PInt 7))
  /\ (exists d,
         get_excel_row numbers "7" = PDict d
         /\ keys d = ["file_id"; "weight"]
         /\ get "file_id" d = Some (PFloatOfInt 7)).
Proof.
  split.
  - destruct (@found_row_keeps_columns demo "7" 0
                [[CStr "a"; CStr "ann"; CNaN]] [[CStr "a"; CStr "late"; CFloat "1.0"]]
                [CInt 7; CStr "bob"; CFloat "3.0"]
                eq_refl eq_refl
                ltac:(repeat constructor; simpl; discriminate)
                eq_refl eq_refl) as [d [H1 [H2 [H3 _]]]].
    exists d. repeat split; assumption.
  - destruct (@found_row_keeps_columns numbers "7" 0
                [] [[CInt 8; CNaN]] [CInt 7; CFloat "1.5"]
                eq_refl eq_refl (Forall_nil _) eq_refl eq_refl)
      as [d [H1 [H2 [H3 _]]]].
    exists d. repeat split; assumption.
Defined.

(** ** Invariants of the outcomes *)

(** X14: in a batch of the cooperative strategy no outcome ever carries an
    error message; every outcome holds the metadata combined from its own
    key, Excel row and API record, and is a success exactly when the
    writer accepted that metadata. *)
Theorem async_outcomes_invariant (self : Env) (s3_keys : list string)
        (max_concurrent : Z) (results : list ProcessingResult) (r : ProcessingResult) :
  process_keys_async self s3_keys max_concurrent = Done results ->
  In r results ->
  In (s3_key r) s3_keys
  /\ error_message r = None
  /\ combined_metadata r = combine_data self (s3_key r) (excel_data r) (api_data r)
  /\ (success r = true <-> copy_object self (s3_key r) (combined_metadata r) = None).
Proof.
  intros Hres Hin. apply process_keys_async_with_returns in Hres. subst results.
  apply in_map_iff in Hin. destruct Hin as [key [<- Hkey]].
  unfold outcome_of. simpl. repeat split; auto.
  - unfold update_s3_metadata.
    destruct (copy_object self key _); simpl; [discriminate|reflexivity].
  - unfold update_s3_metadata. intros ->. reflexivity.
Qed.

Lemma async_outcomes_invariant_witness :
  error_message (process_single_key demo "locked.xml") = None
  /\ (success (process_single_key demo "locked.xml") = true <->
      copy_object demo "locked.xml"
                  (combined_metadata (process_single_key demo "locked.xml")) = None).
Proof.
  destruct (@async_outcomes_invariant demo ["b.xml"; "locked.xml"] 1
              [process_single_key demo "b.xml"; process_single_key demo "locked.xml"]
              (process_single_key demo "locked.xml")
              eq_refl ltac:(simpl; auto)) as [_ [Hm [_ Hs]]].
  split; [exact Hm|exact Hs].
Defined.



(** ** The schedulers as a whole *)

Lemma successful_le_length (results : list ProcessingResult) :
  successful results <= List.length results.
Proof. unfold successful. apply filter_length_le. Qed.

(** X17: the tally of [run_orchestrator] is sound: successes and failures
    add up to the number of outcomes; and it does not depend on the order
    in which the thread pool completes: two completion orders of the same
    batch give the same two counts. *)
Theorem tally_is_sound
        (self : Env) (s3_keys : list string) (max_workers : Z)
        (completion1 completion2 : list nat)
        (results1 results2 : list ProcessingResult) :
  completion_order s3_keys completion1 ->
  completion_order s3_keys completion2 ->
  process_keys_sync self s3_keys max_workers completion1 = Done results1 ->
  process_keys_sync self s3_keys max_workers completion2 = Done results2 ->
  successful results1 + failed results1 = List.length s3_keys
  /\ successful results1 = successful results2
  /\ failed results1 = failed results2.
Proof.
  intros Hc1 Hc2 H1 H2. unfold process_keys_sync, process_keys_sync_with in *.
  destruct (Z.leb max_workers 0); [discriminate|].
  injection H1 as <-. injection H2 as <-.
  set (run := fun key => Ok (process_single_key_sync self key)).
  pose proof (completion_outcomes run Hc1) as P1.
  pose proof (completion_outcomes run Hc2) as P2.
  unfold outcome_of in P1, P2. fold run.
  set (r1 := map _ completion1) in *. set (r2 := map _ completion2) in *.
  assert (P : Permutation r1 r2)
    by (eapply Permutation_trans; [exact P1|apply Permutation_sym; exact P2]).
  assert (L1 : List.length r1 = List.length s3_keys)
    by (rewrite (Permutation_length P1); apply length_map).
  pose proof (successful_le_length r1) as Hle.
  pose proof (successful_permutation P) as Hs.
  unfold failed. rewrite <- (Permutation_length P), <- Hs. lia.
Qed.

Lemma tally_is_sound_witness :
  successful [process_single_key_sync demo "a.xml"; process_single_key_sync demo "b.xml"]
  = successful [process_single_key_sync demo "b.xml"; process_single_key_sync demo "a.xml"].
Proof.
  exact (proj1 (proj2 (@tally_is_sound demo ["a.xml"; "b.xml"] 2 [0; 1] [1; 0] _ _
                         ltac:(apply Permutation_refl) ltac:(apply perm_swap)
                         eq_refl eq_refl))).
Defined.

(** ** The entry point and the loader *)

(** X19: [run_orchestrator] passes an exception of the listing on to its
    caller and processes nothing; a listing without contents gives the
    empty list whatever the limit and the strategy; otherwise, with a
    limit of at least 1, it returns one outcome per listed key, in listing
    order under the cooperative strategy. *)
Theorem run_orchestrator_cases
        (list_objects_v2 : Listing) (self : Env) (prefix : string) (max_keys : Z)
        (use_async : bool) (max_concurrent : Z) (completion : list nat) :
  (forall msg,
      list_objects_v2 (s3_bucket_name self) prefix max_keys = Raise msg ->
      run_orchestrator list_objects_v2 self prefix max_keys use_async
                       max_concurrent completion = Fails msg)
  /\ (list_objects_v2 (s3_bucket_name self) prefix max_keys = Ok None
      \/ list_objects_v2 (s3_bucket_name self) prefix max_keys = Ok (Some []) ->
      run_orchestrator list_objects_v2 self prefix max_keys use_async
                       max_concurrent completion = Done [])
  /\ (forall s3_keys,
         list_objects_v2 (s3_bucket_name self) prefix max_keys = Ok (Some s3_keys) ->
         (1 <= max_concurrent)%Z ->
         completion_order s3_keys completion ->
         exists results,
           run_orchestrator list_objects_v2 self prefix max_keys use_async
                            max_concurrent completion = Done results
           /\ List.length results = List.length s3_keys
           /\ Permutation (map s3_key results) s3_keys
           /\ (use_async = true -> map s3_key results = s3_keys)).
Proof.
  unfold run_orchestrator, get_s3_keys. split; [|split].
  - intros msg ->. reflexivity.
  - intros [->| ->]; reflexivity.
  - intros s3_keys -> Hl Hc. simpl.
    destruct s3_keys as [|k ks] eqn:Ek.
    { exists []. simpl. repeat split; auto. }
    rewrite <- Ek in *. replace (is_empty s3_keys) with false by (now subst).
    clear Ek. destruct use_async.
    + unfold process_keys_async.
      rewrite process_keys_async_with_done by assumption.
      eexists. split; [reflexivity|].
      assert (E : map s3_key
                      (map (outcome_of (fun key => Ok (process_single_key self key)))
                           s3_keys) = s3_keys).
      { apply outcomes_keys. intros key r H. inversion H. reflexivity. }
      split; [apply length_map|]. rewrite E. split; auto.
    + unfold process_keys_sync.
      rewrite process_keys_sync_with_done by assumption.
      set (run := fun key => Ok (process_single_key_sync self key)).
      pose proof (completion_outcomes run Hc) as P.
      eexists. split; [reflexivity|].
      split; [rewrite (Permutation_length P); apply length_map|].
      split; [|discriminate].
      apply Permutation_trans with (map s3_key (map (outcome_of run) s3_keys)).
      * now apply Permutation_map.
      * rewrite outcomes_keys; [apply Permutation_refl|].
        intros key r H. inversion H. apply process_single_key_sync_key.
Qed.

Lemma run_orchestrator_cases_witness :
  run_orchestrator (fixed_listing (Raise "AccessDenied")) demo "" 100 true 10 []
  = Fails "AccessDenied"
  /\ run_orchestrator (fixed_listing (Ok None)) demo "" 100 false 0 [] = Done []
  /\ exists results,
       run_orchestrator (fixed_listing (Ok (Some ["b.xml"; "c.xml"])))
                        demo "" 100 false 2 [1; 0] = Done results
       /\ List.length results = 2.
Proof.
  split; [|split].
  - exact (proj1 (run_orchestrator_cases (fixed_listing (Raise "AccessDenied"))
                    demo "" 100 true 10 []) "AccessDenied" eq_refl).
  - exact (proj1 (proj2 (run_orchestrator_cases (fixed_listing (Ok None))
                           demo "" 100 false 0 [])) (or_introl eq_refl)).
  - destruct (proj2 (proj2 (run_orchestrator_cases
                              (fixed_listing (Ok (Some ["b.xml"; "c.xml"])))
                              demo "" 100 false 2 [1; 0]))
                    ["b.xml"; "c.xml"] eq_refl ltac:(lia) ltac:(apply perm_swap))
      as [results [H [Hlen _]]].
    exists results. split; assumption.
Defined.

Lemma prefix_empty (s : string) : String.prefix "" s = true.
Proof. destruct s; reflexivity. Qed.

Lemma prefix_s3 (path : string) :
  String.prefix "s3://" path = true -> exists rest, path = ("s3://" ++ rest)%string.
Proof.
  intros H.
  do 5 (destruct path as [|? path]; simpl in H; [discriminate|];
        match type of H with
        | (if ?d then _ else _) = true => destruct d; [subst|discriminate]
        end).
  exists path. reflexivity.
Qed.

Lemma split_s3 (rest : string) :
  split "/" ("s3://" ++ rest) = "s3:" :: "" :: split "/" rest.
Proof.
  change ("s3://" ++ rest)%string with ("s3:" ++ String "/" ("" ++ String "/" rest))%string.
  now rewrite !split_append_sep.
Qed.

(** X20: an S3 address [s3://bucket/key] is taken apart into its bucket
    and its key, slashes of the key included: the loader asks the store
    for exactly that object and reads the sheet from what it gets. *)
Theorem load_from_s3_address (io : Loader) (bucket key : string) :
  contains "/" bucket = false ->
  _load_excel_data io ("s3://" ++ bucket ++ "/" ++ key)
  = (data <- get_object io bucket key ;; read_excel_bytes io data).
Proof.
  intros Hb. unfold _load_excel_data.
  assert (Hp : String.prefix "s3://" ("s3://" ++ bucket ++ "/" ++ key) = true).
  { simpl. apply prefix_empty. }
  rewrite Hp, split_s3.
  change (bucket ++ "/" ++ key)%string with (bucket ++ String "/" key)%string.
  rewrite split_append_sep, (split_without_sep _ _ Hb).
  simpl. now rewrite (join_split "/" key).
Qed.

Lemma load_from_s3_address_witness :
  _load_excel_data demo_loader ("s3://" ++ "data" ++ "/" ++ "ref/sheet.xlsx") = Ok sheet.
Proof.
  rewrite (@load_from_s3_address demo_loader "data" "ref/sheet.xlsx" eq_refl).
  reflexivity.
Defined.

(** X21: for every path that starts with [s3://] the bucket index is in
    range, so the loader never fails on the address itself: it asks the
    store for a bucket without slash and a key that, put back behind the
    bucket, gives the path again. *)
Theorem s3_address_always_parses (io : Loader) (path : string) :
  String.prefix "s3://" path = true ->
  exists bucket key,
    contains "/" bucket = false
    /\ (path = ("s3://" ++ bucket ++ "/" ++ key)%string
        \/ (path = ("s3://" ++ bucket)%string /\ key = ""))
    /\ _load_excel_data io path
       = (data <- get_object io bucket key ;; read_excel_bytes io data).
Proof.
  intros Hp. unfold _load_excel_data. rewrite Hp.
  destruct (prefix_s3 _ Hp) as [rest ->]. rewrite split_s3.
  pose proof (split_parts_without_sep "/" rest) as Hparts.
  pose proof (join_split "/" rest) as Hjoin.
  destruct (split "/" rest) as [|bucket parts] eqn:E;
    [now apply split_not_nil in E|].
  exists bucket, (String.concat "/" parts).
  inversion Hparts as [|? ? Hb _]. split; [exact Hb|]. split; [|reflexivity].
  destruct parts as [|p parts]; simpl in Hjoin |- *.
  - right. now rewrite Hjoin.
  - left. now rewrite <- Hjoin.
Qed.

Lemma s3_address_always_parses_witness :
  exists bucket key,
    contains "/" bucket = false
    /\ ("s3://data" = ("s3://" ++ bucket ++ "/" ++ key)%string
        \/ ("s3://data" = ("s3://" ++ bucket)%string /\ key = ""))
    /\ _load_excel_data demo_loader "s3://data"
       = (data <- get_object demo_loader bucket key ;;
          read_excel_bytes demo_loader data).
Proof.
  exact (@s3_address_always_parses demo_loader "s3://data" eq_refl).
Defined.

(** ** The status of the answer *)


